(** * cdptools.legistar_utils.events: the Matcher and the Normalizer

    A shallow embedding of [get_matching_legistar_event_by_minutes_match]
    and [parse_legistar_event_details] of
    [src/cdptools/legistar_utils/events.py], and the properties of the
    specification checked against it.

    The two functions work on the JSON documents the Legistar API returns:
    dynamically typed dictionaries whose fields may hold [null], numbers,
    text or nested containers. The embedding keeps that: a Python value is
    a [value], a dictionary is an insertion-ordered association list, and
    every operation that can raise in Python returns a [result]. *)

From Stdlib Require Import List String Ascii ZArith QArith Bool Lia DecimalString.
From Stdlib Require Import Sorted Permutation.
Import ListNotations.

Local Open Scope string_scope.
Local Open Scope Z_scope.
#[local] Set Warnings "-register-all".

(** ** Python values *)

(** A [datetime.datetime] as [strptime] builds it for the event's format:
    no seconds, no time zone. *)
Record datetime : Type := mkDatetime
  { dt_year : Z; dt_month : Z; dt_day : Z; dt_hour : Z; dt_minute : Z }.

(** The values the two functions meet. A float is the finite rational it
    denotes (JSON has neither NaN nor infinities); text is ASCII. *)
Inductive value : Type :=
| VNone
| VBool (b : bool)
| VInt (z : Z)
| VFloat (q : Q)
| VStr (s : string)
| VList (l : list value)
| VDict (d : list (string * value))
| VDatetime (t : datetime).

(** A string-keyed dictionary, in insertion order. *)
Definition dict : Type := list (string * value).

(** The exceptions the code can raise. *)
Inductive exn : Type :=
| KeyError (k : string)
| TypeError
| ValueError
| AttributeError.

(** ** The error monad *)

Definition result (A : Type) : Type := (exn + A)%type.

Definition Ok {A : Type} (a : A) : result A := inr a.
Definition Err {A : Type} (e : exn) : result A := inl e.

Definition bind {A B : Type} (m : result A) (k : A -> result B) : result B :=
  match m with
  | inl e => inl e
  | inr a => k a
  end.

Notation "x <- m ;; k" := (bind m (fun x => k))
  (at level 61, m at next level, right associativity).

Fixpoint mapM {A B : Type} (f : A -> result B) (l : list A) : result (list B) :=
  match l with
  | [] => Ok []
  | a :: rest =>
      b <- f a ;;
      bs <- mapM f rest ;;
      Ok (b :: bs)
  end.

(** ** Dictionaries *)

(** [d.get(k)]: the value stored under [k], if any. *)
Fixpoint dict_get (k : string) (d : dict) : option value :=
  match d with
  | [] => None
  | (k', v) :: rest => if String.eqb k k' then Some v else dict_get k rest
  end.

(** [d[k] = v]: an existing key keeps its place, a new one goes last. *)
Fixpoint dict_set (k : string) (v : value) (d : dict) : dict :=
  match d with
  | [] => [(k, v)]
  | (k', v') :: rest =>
      if String.eqb k k' then (k', v) :: rest else (k', v') :: dict_set k v rest
  end.

(** [v[k]] for a text key [k]: [KeyError] on a dictionary without the key,
    [TypeError] on everything that is not a dictionary. *)
Definition subscript (v : value) (k : string) : result value :=
  match v with
  | VDict d =>
      match dict_get k d with
      | Some x => Ok x
      | None => Err (KeyError k)
      end
  | _ => Err TypeError
  end.

(** [v[k1][k2]]. *)
Definition subscript2 (v : value) (k1 k2 : string) : result value :=
  inner <- subscript v k1 ;;
  subscript inner k2.

(** [for x in v]: the elements of a list, the keys of a dictionary, the
    characters of a text; nothing else here is iterable. *)
Definition iterate (v : value) : result (list value) :=
  match v with
  | VList l => Ok l
  | VDict d => Ok (map (fun kv => VStr (fst kv)) d)
  | VStr s => Ok (map (fun c => VStr (String c EmptyString)) (list_ascii_of_string s))
  | _ => Err TypeError
  end.

(** ** Built-ins *)

(** [bool(v)], the test of [if v:]. *)
Definition truthy (v : value) : bool :=
  match v with
  | VNone => false
  | VBool b => b
  | VInt z => negb (z =? 0)
  | VFloat q => negb (Qnum q =? 0)
  | VStr s => negb (String.eqb s "")
  | VList l => match l with [] => false | _ => true end
  | VDict d => match d with [] => false | _ => true end
  | VDatetime _ => true
  end.

(** The ASCII white space [int] skips: tab, line feed, vertical tab, form
    feed, carriage return and space. *)
Definition is_space (c : ascii) : bool :=
  let n := nat_of_ascii c in
  (((9 <=? n) && (n <=? 13)) || (n =? 32))%nat.

Definition digit_val (c : ascii) : option Z :=
  let n := nat_of_ascii c in
  if ((48 <=? n) && (n <=? 57))%nat then Some (Z.of_nat (n - 48)) else None.

Fixpoint drop_space (l : list ascii) : list ascii :=
  match l with
  | c :: rest => if is_space c then drop_space rest else l
  | [] => []
  end.

(** The digits of a decimal literal, single underscores allowed between
    them: the value read and the text left, or [None] on a doubled or
    trailing underscore. [prev_us] tells that the last character was an
    underscore. *)
Fixpoint scan_digits (acc : Z) (prev_us : bool) (l : list ascii)
  : option (Z * list ascii) :=
  match l with
  | c :: rest =>
      match digit_val c with
      | Some d => scan_digits (10 * acc + d) false rest
      | None =>
          if Ascii.eqb c "_"
          then (if prev_us then None else scan_digits acc true rest)
          else (if prev_us then None else Some (acc, l))
      end
  | [] => if prev_us then None else Some (acc, [])
  end.

(** A sign-free literal: it starts with a digit, and only white space may
    follow the digits. *)
Definition scan_literal (l : list ascii) : option Z :=
  match l with
  | c :: _ =>
      match digit_val c with
      | Some _ =>
          match scan_digits 0 false l with
          | Some (z, rest) =>
              match drop_space rest with
              | [] => Some z
              | _ => None
              end
          | None => None
          end
      | None => None
      end
  | [] => None
  end.

(** [int(s)] for a text [s] in base 10. *)
Definition int_of_string (s : string) : option Z :=
  match drop_space (list_ascii_of_string s) with
  | c :: rest =>
      if Ascii.eqb c "-" then option_map Z.opp (scan_literal rest)
      else if Ascii.eqb c "+" then scan_literal rest
      else scan_literal (c :: rest)
  | [] => None
  end.

(** [int(v)]: a float is truncated towards zero, a text is parsed
    ([ValueError] when it is no literal), [None] and containers are a
    [TypeError]. *)
Definition py_int (v : value) : result Z :=
  match v with
  | VBool b => Ok (if b then 1 else 0)
  | VInt z => Ok z
  | VFloat q => Ok (Z.quot (Qnum q) (Z.pos (Qden q)))
  | VStr s =>
      match int_of_string s with
      | Some z => Ok z
      | None => Err ValueError
      end
  | VNone | VList _ | VDict _ | VDatetime _ => Err TypeError
  end.

(** [s.lower()] on ASCII text: the letters A to Z. The Matcher takes the
    runtime's [str.lower] as a parameter; this one runs the examples,
    whose text is ASCII. *)
Definition lower_ascii (c : ascii) : ascii :=
  let n := nat_of_ascii c in
  if ((65 <=? n) && (n <=? 90))%nat then ascii_of_nat (n + 32) else c.

Fixpoint lower (s : string) : string :=
  match s with
  | EmptyString => EmptyString
  | String c rest => String (lower_ascii c) (lower rest)
  end.

(** [s.split("T")[0]]: the text before the first ["T"], all of it when
    there is none. *)
Fixpoint before_T (s : string) : string :=
  match s with
  | EmptyString => EmptyString
  | String c rest => if Ascii.eqb c "T" then EmptyString else String c (before_T rest)
  end.

(** [v.split("T")[0]]: only text has the method. *)
Definition split_T_head (v : value) : result string :=
  match v with
  | VStr s => Ok (before_T s)
  | _ => Err AttributeError
  end.

(** [x in l] for a list [l] of text. *)
Definition py_in (x : value) (l : list string) : bool :=
  match x with
  | VStr s => existsb (String.eqb s) l
  | _ => false
  end.

(** ** The Matcher *)

(** The score map is keyed by whatever the events carry as ["EventId"]:
    any hashable value. Numbers are one key when they are equal as
    numbers ([1], [1.0] and [True] are); lists and dictionaries cannot
    be keys. *)
Definition hashable (v : value) : bool :=
  match v with
  | VList _ | VDict _ => false
  | _ => true
  end.

Definition number_of (v : value) : option Q :=
  match v with
  | VBool b => Some (inject_Z (if b then 1 else 0))
  | VInt z => Some (inject_Z z)
  | VFloat q => Some q
  | _ => None
  end.

Definition datetime_eqb (a b : datetime) : bool :=
  (dt_year a =? dt_year b) && (dt_month a =? dt_month b) && (dt_day a =? dt_day b)
  && (dt_hour a =? dt_hour b) && (dt_minute a =? dt_minute b).

(** [a == b] on hashable values. *)
Definition key_eqb (a b : value) : bool :=
  match number_of a, number_of b with
  | Some x, Some y => Qeq_bool x y
  | None, None =>
      match a, b with
      | VNone, VNone => true
      | VStr s, VStr t => String.eqb s t
      | VDatetime x, VDatetime y => datetime_eqb x y
      | _, _ => false
      end
  | _, _ => false
  end.

(** The score map: a Python [dict] from event identifiers to scores. *)
Definition score_map : Type := list (value * Z).

(** [scores[k] = s]: an equal key already there keeps its place (and its
    own spelling), a new key goes last. *)
Fixpoint scores_set (k : value) (s : Z) (d : score_map) : score_map :=
  match d with
  | [] => [(k, s)]
  | (k', s') :: rest =>
      if key_eqb k k' then (k', s) :: rest else (k', s') :: scores_set k s rest
  end.

Fixpoint scores_get (k : value) (d : score_map) : option Z :=
  match d with
  | [] => None
  | (k', s) :: rest => if key_eqb k k' then Some s else scores_get k rest
  end.


(** The class [AgendaMatchResults]. *)
Record AgendaMatchResults : Type := mkAgendaMatchResults
  { selected_event : value; match_scores : score_map }.

(** One call of the external similarity capability: the two collections
    of strings it was given. *)
Definition ratio_call : Type := (list string * list value)%type.

(** The state of the ranking loop: the three local variables, and the
    calls made to the similarity capability so far (a ghost trace, kept
    to tell how often the capability is used). [max_score] starts at
    [0.0] and then holds integer scores; it is compared as a number, so
    an integer carries it. *)
Record match_state : Type := mkMatchState
  { st_max_score : Z;
    st_selected : value;
    st_scores : score_map;
    st_calls : list ratio_call }.

(** The display name of an event item: the matter name when truthy, else
    the title (lines 146-149, and again 194-197). *)
Definition item_display_name (ei : value) : result value :=
  mn <- subscript ei "EventItemMatterName" ;;
  if truthy mn
  then subscript ei "EventItemMatterName"
  else subscript ei "EventItemTitle".

(** The list [event_minutes_items] of one candidate (lines 144-149). *)
Definition event_minutes_items (event : value) : result (list value) :=
  eis <- subscript event "EventItems" ;;
  l <- iterate eis ;;
  mapM item_display_name l.

(** The key [event["EventId"]] of the score map; storing under an
    unhashable key is a [TypeError]. *)
Definition event_key (event : value) : result value :=
  k <- subscript event "EventId" ;;
  if hashable k then Ok k else Err TypeError.

Section Matcher.

(** [fuzzywuzzy.fuzz.token_set_ratio], an external capability: a score
    for two collections of strings. Nothing is assumed about it. *)
Variable token_set_ratio : list string -> list value -> Z.

(** [str.lower], from the Python runtime: it lower-cases the letters of
    every script, so it is taken as it is. Nothing is assumed about it. *)
Variable str_lower : string -> string.

(** The score the loop computes for one candidate (lines 144-152). *)
Definition event_match_score (targets : list string) (event : value) : result Z :=
  names <- event_minutes_items event ;;
  Ok (token_set_ratio targets names).

(** The body of the loop over the candidates (lines 143-160). *)
Definition match_event (targets : list string) (st : match_state) (event : value)
  : result match_state :=
  names <- event_minutes_items event ;;
  let match_score := token_set_ratio targets names in
  k <- event_key event ;;
  let scores := scores_set k match_score (st_scores st) in
  let calls := (st_calls st ++ [(targets, names)])%list in
  if st_max_score st <? match_score
  then Ok (mkMatchState match_score event scores calls)
  else Ok (mkMatchState (st_max_score st) (st_selected st) scores calls).

Fixpoint match_loop (targets : list string) (st : match_state) (events : list value)
  : result match_state :=
  match events with
  | [] => Ok st
  | event :: rest =>
      st' <- match_event targets st event ;;
      match_loop targets st' rest
  end.

(** [get_matching_legistar_event_by_minutes_match]: the match result,
    and with it the trace of the calls made to [token_set_ratio]. *)
Definition get_matching_legistar_event_by_minutes_match
    (minutes_items_provided : list string) (legistar_events : list value)
  : result (AgendaMatchResults * list ratio_call) :=
  match legistar_events with
  | [event] =>
      k <- event_key event ;;
      Ok (mkAgendaMatchResults event [(k, 100)], [])
  | _ :: _ :: _ =>
      let targets := map str_lower minutes_items_provided in
      st <- match_loop targets (mkMatchState 0 VNone [] []) legistar_events ;;
      Ok (mkAgendaMatchResults (st_selected st) (st_scores st), st_calls st)
  | [] => Ok (mkAgendaMatchResults (VDict []) [], [])
  end.

End Matcher.

(** ** The Normalizer *)

(** One attachment of an event item (lines 229-233). *)
Definition parse_attachment (matter_attachment : value) : result value :=
  name <- subscript matter_attachment "MatterAttachmentName" ;;
  uri <- subscript matter_attachment "MatterAttachmentHyperlink" ;;
  id <- subscript matter_attachment "MatterAttachmentId" ;;
  id <- py_int id ;;
  Ok (VDict [("name", name); ("uri", uri);
             ("legistar_matter_attachment_id", VInt id)]).

(** One vote of an event item (lines 240-250): the vote's identifier goes
    through [int], the person's fields are copied as they are. *)
Definition parse_vote (vote_info : value) : result value :=
  decision <- subscript vote_info "VoteValueName" ;;
  vote_id <- subscript vote_info "VoteId" ;;
  vote_id <- py_int vote_id ;;
  full_name <- subscript2 vote_info "PersonInfo" "PersonFullName" ;;
  email <- subscript2 vote_info "PersonInfo" "PersonEmail" ;;
  phone <- subscript2 vote_info "PersonInfo" "PersonPhone" ;;
  website <- subscript2 vote_info "PersonInfo" "PersonWWW" ;;
  person_id <- subscript2 vote_info "PersonInfo" "PersonId" ;;
  Ok (VDict [("decision", decision);
             ("legistar_event_item_vote_id", VInt vote_id);
             ("person", VDict [("full_name", full_name); ("email", email);
                               ("phone", phone); ("website", website);
                               ("legistar_person_id", person_id)])]).

(** The loop over the votes of an item (lines 239-251). Its state is the
    list [votes] and the dictionary [minutes_item]: the assignment of
    ["decision"] stands inside the loop, so it runs once per vote. *)
Fixpoint votes_loop (item : value) (vote_infos : list value)
    (votes : list value) (minutes_item : dict) : result (list value * dict) :=
  match vote_infos with
  | [] => Ok (votes, minutes_item)
  | vote_info :: rest =>
      vote <- parse_vote vote_info ;;
      flag <- subscript item "EventItemPassedFlagName" ;;
      votes_loop item rest (votes ++ [vote])%list (dict_set "decision" flag minutes_item)
  end.

(** The matter of an event item: the matter name when truthy, else the
    matter file (lines 200-203). *)
Definition item_matter (item : value) : result value :=
  mn <- subscript item "EventItemMatterName" ;;
  if truthy mn
  then subscript item "EventItemMatterName"
  else subscript item "EventItemMatterFile".

(** The index of an event item (lines 209-216). *)
Definition item_index (item : value) : result Z :=
  index <- subscript item "EventItemMinutesSequence" ;;
  if truthy index then py_int index else Ok (-1).

(** The votes and the decision of an item (lines 237-253), from the
    dictionary built so far. *)
Definition item_votes (item : value) (minutes_item : dict)
  : result (list value * dict) :=
  flag <- subscript item "EventItemPassedFlagName" ;;
  if truthy flag
  then
    vote_infos <- subscript item "EventItemVoteInfo" ;;
    vote_infos <- iterate vote_infos ;;
    votes_loop item vote_infos [] minutes_item
  else Ok ([], dict_set "decision" VNone minutes_item).

(** The body of the loop over the event items (lines 193-259): [None]
    for an item whose name is on the ignore list, else its minutes item. *)
Definition parse_event_item (ignore_minutes_items : list string) (item : value)
  : result (option value) :=
  minutes_item_name <- item_display_name item ;;
  minutes_item_matter <- item_matter item ;;
  if py_in minutes_item_name ignore_minutes_items then Ok None
  else
    index <- item_index item ;;
    item_id <- subscript item "EventItemId" ;;
    item_id <- py_int item_id ;;
    let minutes_item :=
      [("name", minutes_item_name); ("matter", minutes_item_matter);
       ("index", VInt index); ("legistar_event_item_id", VInt item_id)] in
    attachments <- subscript item "EventItemMatterAttachments" ;;
    attachments <- iterate attachments ;;
    item_attachments <- mapM parse_attachment attachments ;;
    vd <- item_votes item minutes_item ;;
    let minutes_item := dict_set "votes" (VList (fst vd)) (snd vd) in
    let minutes_item := dict_set "attachments" (VList item_attachments) minutes_item in
    Ok (Some (VDict minutes_item)).

(** The loop over the event items (lines 191-259), [acc] the list
    [minutes_items] built so far. *)
Fixpoint minutes_items_loop (ignore_minutes_items : list string)
    (acc : list value) (items : list value) : result (list value) :=
  match items with
  | [] => Ok acc
  | item :: rest =>
      r <- parse_event_item ignore_minutes_items item ;;
      minutes_items_loop ignore_minutes_items
        (match r with Some mi => (acc ++ [mi])%list | None => acc end) rest
  end.

(** The sort key [i["index"]] of line 262. The loop body stores the
    index of a minutes item as an integer, so integers are all the sort
    compares; a key of another type is given a [TypeError]. *)
Definition index_key (mi : value) : result Z :=
  k <- subscript mi "index" ;;
  match k with
  | VInt z => Ok z
  | _ => Err TypeError
  end.

(** [sorted(l, key=...)]: Python's sort is stable, and on integer keys
    every stable sort returns the same list ([stable_sorted_unique]);
    here an insertion sort on the decorated list, an element going in
    front of the later elements with the same key. *)
Fixpoint insert_by_key (x : Z * value) (l : list (Z * value)) : list (Z * value) :=
  match l with
  | [] => [x]
  | y :: rest => if fst x <=? fst y then x :: l else y :: insert_by_key x rest
  end.

Definition sort_by_key (l : list (Z * value)) : list (Z * value) :=
  fold_right insert_by_key [] l.

Definition decorate (mi : value) : result (Z * value) :=
  k <- index_key mi ;;
  Ok (k, mi).

Definition sorted_by_index (l : list value) : result (list value) :=
  keyed <- mapM decorate l ;;
  Ok (map snd (sort_by_key keyed)).

Section Normalizer.

(** [datetime.strptime(text, "%Y-%m-%dT%I:%M %p")], from the Python
    runtime: the timestamp read, or [None] where it raises
    [ValueError]. What it accepts depends on the runtime's version and
    locale; nothing is assumed about it. *)
Variable strptime : string -> option datetime.

(** [str(v)] for the values whose text is not modelled: floats,
    containers and datetimes. *)
Variable str_other : value -> string.

(** [str(v)], which ["{}".format(v)] writes. *)
Definition py_str (v : value) : string :=
  match v with
  | VStr s => s
  | VNone => "None"
  | VBool b => if b then "True" else "False"
  | VInt z => NilZero.string_of_int (Z.to_int z)
  | _ => str_other v
  end.

(** The official datetime of the event (lines 186-188). *)
Definition parse_event_datetime (legistar_event_details : value) : result datetime :=
  d <- subscript legistar_event_details "EventDate" ;;
  event_date <- split_T_head d ;;
  t <- subscript legistar_event_details "EventTime" ;;
  let event_dt := event_date ++ "T" ++ py_str t in
  match strptime event_dt with
  | Some dt => Ok dt
  | None => Err ValueError
  end.

(** [parse_legistar_event_details]. *)
Definition parse_legistar_event_details
    (legistar_event_details : value) (ignore_minutes_items : list string)
  : result value :=
  event_dt <- parse_event_datetime legistar_event_details ;;
  items <- subscript legistar_event_details "EventItems" ;;
  items <- iterate items ;;
  minutes_items <- minutes_items_loop ignore_minutes_items [] items ;;
  minutes_items <- sorted_by_index minutes_items ;;
  agenda_file_uri <- subscript legistar_event_details "EventAgendaFile" ;;
  body <- subscript legistar_event_details "EventBodyName" ;;
  event_id <- subscript legistar_event_details "EventId" ;;
  event_id <- py_int event_id ;;
  link <- subscript legistar_event_details "EventInSiteURL" ;;
  minutes_file_uri <- subscript legistar_event_details "EventMinutesFile" ;;
  Ok (VDict [("agenda_file_uri", agenda_file_uri);
             ("body", body);
             ("event_datetime", VDatetime event_dt);
             ("minutes_items", VList minutes_items);
             ("legistar_event_id", VInt event_id);
             ("legistar_event_link", link);
             ("minutes_file_uri", minutes_file_uri)]).

End Normalizer.

(** ** A reference [strptime]

    [datetime.strptime(text, "%Y-%m-%dT%I:%M %p")] as CPython 3.7 runs it
    in the C locale on ASCII text: the format becomes the regular
    expression
    [(\d\d\d\d)-(1[0-2]|0[1-9]|[1-9])-(3[0-1]|[1-2]\d|0[1-9]|[1-9]| [1-9])T(1[0-2]|0[1-9]|[1-9]):([0-5]\d|\d)\s+(am|pm)]
    matched without regard to case, the whole text has to be used up, and
    the date has to exist. The theorems below hold for every [strptime];
    this one runs the examples. *)

(** What [\s] matches in ASCII. *)
Definition is_re_space (c : ascii) : bool :=
  let n := nat_of_ascii c in
  (((9 <=? n) && (n <=? 13)) || ((28 <=? n) && (n <=? 32)))%nat.

(** A group of one or two digits followed by the rest [k] of the
    pattern: the two-digit alternatives come first, and the one-digit
    alternative is tried when they, or the rest after them, fail. *)
Definition digits_group {A : Type} (ok2 : Z -> Z -> bool) (ok1 : Z -> bool)
    (k : Z -> list ascii -> option A) (l : list ascii) : option A :=
  let one :=
    match l with
    | c1 :: r1 =>
        match digit_val c1 with
        | Some d1 => if ok1 d1 then k d1 r1 else None
        | None => None
        end
    | [] => None
    end in
  match l with
  | c1 :: c2 :: r2 =>
      match digit_val c1, digit_val c2 with
      | Some d1, Some d2 =>
          if ok2 d1 d2
          then match k (10 * d1 + d2) r2 with
               | Some a => Some a
               | None => one
               end
          else one
      | _, _ => one
      end
  | _ => one
  end.

(** [1[0-2]|0[1-9]|[1-9]], the month and the hour. *)
Definition month_ok2 (d1 d2 : Z) : bool :=
  ((d1 =? 1) && (d2 <=? 2)) || ((d1 =? 0) && (1 <=? d2)).
Definition nonzero_digit (d : Z) : bool := 1 <=? d.

(** [3[0-1]|[1-2]\d|0[1-9]|[1-9]], the day (the alternative led by a
    space is in [day_group]). *)
Definition day_ok2 (d1 d2 : Z) : bool :=
  ((d1 =? 3) && (d2 <=? 1)) || ((1 <=? d1) && (d1 <=? 2)) || ((d1 =? 0) && (1 <=? d2)).

Definition day_group {A : Type} (k : Z -> list ascii -> option A) (l : list ascii)
  : option A :=
  match digits_group day_ok2 nonzero_digit k l with
  | Some a => Some a
  | None =>
      match l with
      | c1 :: c2 :: r2 =>
          if Ascii.eqb c1 " " then
            match digit_val c2 with
            | Some d => if nonzero_digit d then k d r2 else None
            | None => None
            end
          else None
      | _ => None
      end
  end.

(** [[0-5]\d|\d], the minute. *)
Definition minute_ok2 (d1 d2 : Z) : bool := d1 <=? 5.

(** A literal character of the format, matched without regard to case. *)
Definition literal {A : Type} (c : ascii) (k : list ascii -> option A) (l : list ascii)
  : option A :=
  match l with
  | c' :: rest => if Ascii.eqb (lower_ascii c') (lower_ascii c) then k rest else None
  | [] => None
  end.

(** [\d\d\d\d], the year. *)
Definition year_group {A : Type} (k : Z -> list ascii -> option A) (l : list ascii)
  : option A :=
  match l with
  | c1 :: c2 :: c3 :: c4 :: rest =>
      match digit_val c1, digit_val c2, digit_val c3, digit_val c4 with
      | Some d1, Some d2, Some d3, Some d4 =>
          k (1000 * d1 + 100 * d2 + 10 * d3 + d4) rest
      | _, _, _, _ => None
      end
  | _ => None
  end.

Fixpoint drop_re_space (l : list ascii) : list ascii :=
  match l with
  | c :: rest => if is_re_space c then drop_re_space rest else l
  | [] => []
  end.

(** [\s+(am|pm)] and the end of the text: [true] for [pm]. *)
Definition meridiem_group (l : list ascii) : option bool :=
  match l with
  | c :: rest =>
      if is_re_space c then
        match drop_re_space rest with
        | [a; m] =>
            if Ascii.eqb (lower_ascii m) "m" then
              if Ascii.eqb (lower_ascii a) "a" then Some false
              else if Ascii.eqb (lower_ascii a) "p" then Some true
              else None
            else None
        | _ => None
        end
      else None
  | [] => None
  end.

Definition is_leap (y : Z) : bool :=
  ((y mod 4 =? 0) && negb (y mod 100 =? 0)) || (y mod 400 =? 0).

Definition days_in_month (y m : Z) : Z :=
  if m =? 2 then (if is_leap y then 29 else 28)
  else if (m =? 4) || (m =? 6) || (m =? 9) || (m =? 11) then 30
  else 31.

(** The 24-hour clock hour of a 12-hour clock reading. *)
Definition hour24 (h : Z) (pm : bool) : Z :=
  if pm then (if h =? 12 then 12 else h + 12)
  else (if h =? 12 then 0 else h).

Definition strptime_event_format (text : string) : option datetime :=
  year_group (fun y =>
  literal "-" (
  digits_group month_ok2 nonzero_digit (fun m =>
  literal "-" (
  day_group (fun d =>
  literal "T" (
  digits_group month_ok2 nonzero_digit (fun h =>
  literal ":" (
  digits_group minute_ok2 (fun _ => true) (fun mi rest =>
  match meridiem_group rest with
  | Some pm =>
      if (1 <=? y) && (d <=? days_in_month y m)
      then Some (mkDatetime y m d (hour24 h pm) mi)
      else None
  | None => None
  end)))))))))
  (list_ascii_of_string text).

(** A rendering for the values whose [str] is not modelled; the examples
    never format such a value. *)
Definition str_unmodelled (v : value) : string := "".

(** ** Notions the statements use *)

(** The entry ["decision"] of a minutes item, as a list of no or one
    entry: [None] under a falsy flag, the flag under a truthy flag with
    votes, and no entry under a truthy flag without votes. *)
Definition decision_entry (flag : value) (vote_infos : list value) : dict :=
  if truthy flag
  then match vote_infos with
       | [] => []
       | _ => [("decision", flag)]
       end
  else [("decision", VNone)].

(** The vote records of an item: read only under a truthy flag. *)
Definition item_vote_infos (item flag : value) : result (list value) :=
  if truthy flag
  then
    vote_infos <- subscript item "EventItemVoteInfo" ;;
    iterate vote_infos
  else Ok [].

(** The attachments of an item. *)
Definition item_attachments (item : value) : result (list value) :=
  attachments <- subscript item "EventItemMatterAttachments" ;;
  attachments <- iterate attachments ;;
  mapM parse_attachment attachments.

(** The identifier of an item. *)
Definition item_id (item : value) : result Z :=
  id <- subscript item "EventItemId" ;;
  py_int id.

(** The minutes item as the loop body leaves it. *)
Definition minutes_item_dict (name matter : value) (index id : Z) (decision : dict)
    (votes attachments : list value) : value :=
  VDict ([("name", name); ("matter", matter); ("index", VInt index);
          ("legistar_event_item_id", VInt id)]
         ++ decision
         ++ [("votes", VList votes); ("attachments", VList attachments)])%list.

(** The order of the sort: by key. *)
Definition key_le (p q : Z * value) : Prop := fst p <= fst q.

(** The minutes items whose index is [k]. *)
Definition has_index (k : Z) (mi : value) : bool :=
  match index_key mi with
  | inr z => z =? k
  | inl _ => false
  end.

(** A decorated list: every element beside its own key. *)
Definition keyed_by_index (l : list (Z * value)) : Prop :=
  Forall (fun p => index_key (snd p) = Ok (fst p)) l.

(** The minutes items emitted for a list of loop-body results, in order. *)
Definition emitted (rs : list (option value)) : list value :=
  flat_map (fun r => match r with Some mi => [mi] | None => [] end) rs.

(** The event [d] with the list [items] as its event items. *)
Definition with_event_items (d : dict) (items : list value) : value :=
  VDict (dict_set "EventItems" (VList items) d).

(** The names and the indices of the minutes items of an output. *)
Definition output_field (field : string) (out : value) : result (list value) :=
  items <- subscript out "minutes_items" ;;
  items <- iterate items ;;
  mapM (fun mi => subscript mi field) items.

(** The minutes item has the integer [k] under ["index"]. *)
Definition index_field_is (k : Z) (mi : value) : bool :=
  match subscript mi "index" with
  | inr (VInt z) => z =? k
  | _ => false
  end.

(** [name] is what the event item shows: its matter name when that is
    truthy, its title otherwise. *)
Definition shows_name (item name : value) : Prop :=
  exists matter_name,
    subscript item "EventItemMatterName" = Ok matter_name /\
    subscript item (if truthy matter_name then "EventItemMatterName"
                    else "EventItemTitle") = Ok name.

(** [names] are what the items of the event show, one name per item
    under ["EventItems"], in order. *)
Definition shows_names (event : value) (names : list value) : Prop :=
  exists items l,
    subscript event "EventItems" = Ok items /\ iterate items = Ok l /\
    Forall2 shows_name l names.

(** The text holds no ["T"]. *)
Definition free_of_T (s : string) : bool :=
  negb (existsb (fun c => Ascii.eqb c "T") (list_ascii_of_string s)).

(** ** Sample data *)

(** *** Sample candidates *)

(** A stand-in for the similarity capability: 25 points for every name of
    the candidate that is one of the targets, 100 at most. Like
    [fuzzywuzzy], it scores a candidate without items 0. *)
Definition sample_ratio (targets : list string) (names : list value) : Z :=
  Z.min 100 (25 * Z.of_nat (List.length (filter (fun n => py_in n targets) names))).

Definition sample_event_item (matter_name title : value) : value :=
  VDict [("EventItemMatterName", matter_name); ("EventItemTitle", title)].

Definition sample_candidate (id : value) (items : list value) : value :=
  VDict [("EventId", id); ("EventItems", VList items)].

(** A candidate without items, one named by its title, one by its matter
    name, and one with two names among the targets. *)
Definition candidate_empty : value := sample_candidate (VInt 1) [].
Definition candidate_title : value :=
  sample_candidate (VInt 2) [sample_event_item VNone (VStr "budget")].
Definition candidate_matter : value :=
  sample_candidate (VInt 3) [sample_event_item (VStr "budget") (VStr "Other")].
Definition candidate_both : value :=
  sample_candidate (VInt 4)
    [sample_event_item VNone (VStr "budget"); sample_event_item (VStr "roads") VNone].
(** A second candidate under the identifier of [candidate_title]. *)
Definition candidate_again : value :=
  sample_candidate (VInt 2)
    [sample_event_item (VStr "roads") VNone; sample_event_item VNone (VStr "budget")].
Definition candidate_empty_too : value := sample_candidate (VInt 5) [].

(** *** Sample events *)

Definition sample_person (id : value) : value :=
  VDict [("PersonId", id); ("PersonFullName", VStr "Ada Park");
         ("PersonEmail", VStr "ada@example.org"); ("PersonPhone", VNone);
         ("PersonWWW", VNone)].

Definition sample_vote (id person_id : value) : value :=
  VDict [("VoteId", id); ("VoteValueName", VStr "In Favor");
         ("VotePersonId", person_id); ("PersonInfo", sample_person person_id)].

Definition sample_attachment (id : value) : value :=
  VDict [("MatterAttachmentId", id); ("MatterAttachmentName", VStr "Summary");
         ("MatterAttachmentHyperlink", VStr "http://example.org/summary.pdf")].

Definition sample_item (id matter_name title sequence flag : value)
    (attachments votes : list value) : value :=
  VDict [("EventItemId", id); ("EventItemMatterName", matter_name);
         ("EventItemTitle", title); ("EventItemMatterFile", VStr "CB 1");
         ("EventItemMinutesSequence", sequence);
         ("EventItemPassedFlagName", flag);
         ("EventItemMatterAttachments", VList attachments);
         ("EventItemVoteInfo", VList votes)].

(** An item that passed with one vote on record, one that passed with no
    vote on record, and one without a flag whose vote is on record. *)
Definition item_voted : value :=
  sample_item (VInt 11) (VStr "Budget") (VStr "Budget 2019") (VInt 2) (VStr "Pass")
    [sample_attachment (VStr "301")] [sample_vote (VFloat (71 # 1)) (VStr "42")].
Definition item_passed_unrecorded : value :=
  sample_item (VInt 12) VNone (VStr "Roads") (VStr "1") (VStr "Pass") [] [].
Definition item_unflagged : value :=
  sample_item (VInt 13) VNone (VStr "Call to order") VNone VNone
    [] [sample_vote (VInt 72) (VInt 43)].

Definition sample_event_fields (date time : value) : dict :=
  [("EventId", VStr "4052"); ("EventDate", date); ("EventTime", time);
   ("EventAgendaFile", VStr "http://example.org/agenda.pdf");
   ("EventMinutesFile", VNone); ("EventBodyName", VStr "City Council");
   ("EventInSiteURL", VStr "http://example.org/event")].

(** An event on 4 March 2019 at 3 pm. *)
Definition sample_meeting (items : list value) : value :=
  with_event_items
    (sample_event_fields (VStr "2019-03-04T00:00:00") (VStr "3:00 PM")) items.

(** An item as [sample_item] builds it, without the key of the sequence. *)
Definition item_without_sequence : value :=
  VDict [("EventItemId", VInt 14); ("EventItemMatterName", VNone);
         ("EventItemTitle", VStr "Resolution 1"); ("EventItemMatterFile", VNone);
         ("EventItemPassedFlagName", VNone);
         ("EventItemMatterAttachments", VList []);
         ("EventItemVoteInfo", VList [])].


(** ** The Fetcher *)

(** The module's constants, the client filled in: [LEGISTAR_BASE] and the
    bases built on it (lines 17-21). *)
Definition LEGISTAR_BASE (client : string) : string :=
  "http://webapi.legistar.com/v1/" ++ client.
Definition LEGISTAR_VOTE_BASE (client : string) : string :=
  LEGISTAR_BASE client ++ "/EventItems".
Definition LEGISTAR_EVENT_BASE (client : string) : string :=
  LEGISTAR_BASE client ++ "/Events".
Definition LEGISTAR_MATTER_BASE (client : string) : string :=
  LEGISTAR_BASE client ++ "/Matters".
Definition LEGISTAR_PERSON_BASE (client : string) : string :=
  LEGISTAR_BASE client ++ "/Persons".

(** [s.replace(" ", "T")]. *)
Fixpoint replace_space_T (s : string) : string :=
  match s with
  | EmptyString => EmptyString
  | String c rest =>
      String (if Ascii.eqb c " " then "T"%char else c) (replace_space_T rest)
  end.

(** A number in decimal, padded with zeros on the left to [width]
    characters. *)
Fixpoint zeros (n : nat) : string :=
  match n with
  | O => EmptyString
  | S n' => String "0" (zeros n')
  end.

Definition zero_pad (width : nat) (z : Z) : string :=
  let digits := NilZero.string_of_int (Z.to_int z) in
  zeros (width - String.length digits) ++ digits.

(** [str(t)] for a [datetime] without seconds and microseconds: the date,
    a space, and the time with its seconds. *)
Definition str_datetime (t : datetime) : string :=
  zero_pad 4 (dt_year t) ++ "-" ++ zero_pad 2 (dt_month t) ++ "-"
  ++ zero_pad 2 (dt_day t) ++ " " ++ zero_pad 2 (dt_hour t) ++ ":"
  ++ zero_pad 2 (dt_minute t) ++ ":00".

(** [filter_datetime_format.format(op=op, dt=dt)] (line 57). *)
Definition filter_datetime (op dt : string) : string :=
  "EventDate+" ++ op ++ "+datetime%27" ++ dt ++ "%27".

(** The address of the query for the events of a timespan (lines 58-67). *)
Definition events_url (client : string) (begin end_ : datetime) : string :=
  LEGISTAR_EVENT_BASE client ++ "?$filter="
  ++ filter_datetime "ge" (replace_space_T (str_datetime begin))
  ++ "+and+"
  ++ filter_datetime "lt" (replace_space_T (str_datetime end_)).

(** The addresses of the items of an event (line 71), the votes of an
    item (line 83) and a person (line 93), the identifier already
    written as text. *)
Definition event_items_url (client event_id : string) : string :=
  LEGISTAR_EVENT_BASE client ++ "/" ++ event_id
  ++ "/EventItems?AgendaNote=1&MinutesNote=1&Attachments=1".
Definition votes_url (client event_item_id : string) : string :=
  LEGISTAR_VOTE_BASE client ++ "/" ++ event_item_id ++ "/Votes".
Definition person_url (client person_id : string) : string :=
  LEGISTAR_PERSON_BASE client ++ "/" ++ person_id.

(** [v[k] = x]: only a dictionary takes an assignment under a text key. *)
Definition set_item (v : value) (k : string) (x : value) : result value :=
  match v with
  | VDict d => Ok (VDict (dict_set k x d))
  | _ => Err TypeError
  end.

(** A computation that makes requests: its result together with the
    addresses requested, in order (a ghost trace), or the exception that
    ended it. *)
Definition traced (A : Type) : Type := result (A * list string).

Definition tbind {A B : Type} (m : traced A) (k : A -> traced B) : traced B :=
  match m with
  | inl e => inl e
  | inr (a, urls) =>
      match k a with
      | inl e => inl e
      | inr (b, urls') => inr (b, (urls ++ urls')%list)
      end
  end.

(** A step that makes no request. *)
Definition quiet {A : Type} (m : result A) : traced A :=
  match m with
  | inl e => inl e
  | inr a => inr (a, [])
  end.

Notation "x <~ m ;; k" := (tbind m (fun x => k))
  (at level 61, m at next level, right associativity).

Fixpoint tmapM {A B : Type} (f : A -> traced B) (l : list A) : traced (list B) :=
  match l with
  | [] => quiet (Ok [])
  | a :: rest =>
      b <~ f a ;;
      bs <~ tmapM f rest ;;
      quiet (Ok (b :: bs))
  end.

(** [for x in v: body], where the body changes [x] in place: the
    elements of a list are the objects the list holds, so the list ends
    up holding the changed elements; the keys of a dictionary and the
    characters of a text are visited, and the container stays as it is. *)
Definition for_each_in (body : value -> traced value) (v : value) : traced value :=
  match v with
  | VList l =>
      l' <~ tmapM body l ;;
      quiet (Ok (VList l'))
  | _ =>
      l <~ quiet (iterate v) ;;
      _ <~ tmapM body l ;;
      quiet (Ok v)
  end.

Section Fetcher.

(** [requests.get(url).json()]: what the server answers at an address,
    parsed, or the exception of a body that is no JSON. The server is
    taken to answer an address the same way throughout a call. *)
Variable get_json : string -> result value.

(** [str(v)] for the values whose text is not modelled. *)
Variable str_other : value -> string.

Definition request (url : string) : traced value :=
  match get_json url with
  | inl e => inl e
  | inr v => inr (v, [url])
  end.

(** The body of the loop over the votes of an item (lines 92-99). *)
Definition fetch_person (client : string) (vote_info : value) : traced value :=
  person_id <~ quiet (subscript vote_info "VotePersonId") ;;
  person <~ request (person_url client (py_str str_other person_id)) ;;
  quiet (set_item vote_info "PersonInfo" person).

(** The body of the loop over the items of an event (lines 82-99). The
    list of votes is stored under the key first and changed in place by
    the inner loop; the last step writes the changed list where the
    first stored it. *)
Definition fetch_votes (client : string) (event_item : value) : traced value :=
  item_id <~ quiet (subscript event_item "EventItemId") ;;
  votes <~ request (votes_url client (py_str str_other item_id)) ;;
  event_item <~ quiet (set_item event_item "EventItemVoteInfo" votes) ;;
  votes <~ quiet (subscript event_item "EventItemVoteInfo") ;;
  votes <~ for_each_in (fetch_person client) votes ;;
  quiet (set_item event_item "EventItemVoteInfo" votes).

(** The body of the loop over the events (lines 72-99). *)
Definition fetch_event_items (client : string) (event : value) : traced value :=
  event_id <~ quiet (subscript event "EventId") ;;
  items <~ request (event_items_url client (py_str str_other event_id)) ;;
  event <~ quiet (set_item event "EventItems" items) ;;
  items <~ quiet (subscript event "EventItems") ;;
  items <~ for_each_in (fetch_votes client) items ;;
  quiet (set_item event "EventItems" items).

(** [get_legistar_events_for_timespan]: the response with its events
    filled in, and the addresses requested. *)
Definition get_legistar_events_for_timespan
    (client : string) (begin end_ : datetime) : traced value :=
  response <~ request (events_url client begin end_) ;;
  for_each_in (fetch_event_items client) response.

End Fetcher.

(** *** Notions the statements on the Fetcher use *)

(** [after] is the dictionary [before] with [x] stored under [k]. *)
Definition adds_key (k : string) (x before after : value) : Prop :=
  exists d, before = VDict d /\ after = VDict (dict_set k x d).

(** [out] is the collection [raw] with every element filled in as [R]
    says: a list element by element, anything else only when it has no
    element to visit. *)
Definition each_filled (R : value -> value -> Prop) (raw out : value) : Prop :=
  (exists l l', raw = VList l /\ out = VList l' /\ Forall2 R l l') \/
  (out = raw /\ iterate raw = Ok []).

Section FetcherNotions.

Variable get_json : string -> result value.
Variable str_other : value -> string.

(** A vote with the person the server returns for its [VotePersonId]. *)
Definition person_filled (client : string) (vote vote' : value) : Prop :=
  exists person_id person,
    subscript vote "VotePersonId" = Ok person_id /\
    get_json (person_url client (py_str str_other person_id)) = Ok person /\
    adds_key "PersonInfo" person vote vote'.

(** An item with the votes the server returns for its [EventItemId],
    every vote with its person. *)
Definition votes_filled (client : string) (item item' : value) : Prop :=
  exists item_id votes votes',
    subscript item "EventItemId" = Ok item_id /\
    get_json (votes_url client (py_str str_other item_id)) = Ok votes /\
    each_filled (person_filled client) votes votes' /\
    adds_key "EventItemVoteInfo" votes' item item'.

(** An event with the items the server returns for its [EventId], every
    item with its votes. *)
Definition items_filled (client : string) (event event' : value) : Prop :=
  exists event_id items items',
    subscript event "EventId" = Ok event_id /\
    get_json (event_items_url client (py_str str_other event_id)) = Ok items /\
    each_filled (votes_filled client) items items' /\
    adds_key "EventItems" items' event event'.

End FetcherNotions.

(** The elements of a value, none for what cannot be iterated; the value
    under a key, [None] for what has none. *)
Definition elements (v : value) : list value :=
  match iterate v with
  | inr l => l
  | inl _ => []
  end.

Definition field (k : string) (v : value) : value :=
  match subscript v k with
  | inr x => x
  | inl _ => VNone
  end.

(** The requests behind a filled item (one for its votes, one per vote),
    a filled event (one for its items, and those of the items) and a
    whole result (one for the events, and those of the events). *)
Definition item_requests (item : value) : nat :=
  S (List.length (elements (field "EventItemVoteInfo" item))).

Definition event_requests (event : value) : nat :=
  S (list_sum (map item_requests (elements (field "EventItems" event)))).

Definition total_requests (response : value) : nat :=
  S (list_sum (map event_requests (elements response))).

(** *** A sample server *)

Definition march_4 : datetime := mkDatetime 2019 3 4 0 0.
Definition march_5 : datetime := mkDatetime 2019 3 5 0 0.

Definition sample_events_url : string :=
  "http://webapi.legistar.com/v1/seattle/Events?$filter=EventDate+ge+datetime%272019-03-04T00:00:00%27+and+EventDate+lt+datetime%272019-03-05T00:00:00%27".

(** One event with two items, the first with one vote; every other
    address answers with a body that is no JSON. *)
Definition sample_server (url : string) : result value :=
  if String.eqb url sample_events_url then
    Ok (VList [VDict [("EventId", VInt 4052); ("EventBodyName", VStr "City Council")]])
  else if String.eqb url
    "http://webapi.legistar.com/v1/seattle/Events/4052/EventItems?AgendaNote=1&MinutesNote=1&Attachments=1"
  then
    Ok (VList [VDict [("EventItemId", VInt 11); ("EventItemTitle", VStr "Budget")];
               VDict [("EventItemId", VInt 12); ("EventItemTitle", VStr "Roads")]])
  else if String.eqb url "http://webapi.legistar.com/v1/seattle/EventItems/11/Votes" then
    Ok (VList [VDict [("VoteId", VInt 71); ("VoteValueName", VStr "In Favor");
                      ("VotePersonId", VInt 42)]])
  else if String.eqb url "http://webapi.legistar.com/v1/seattle/EventItems/12/Votes" then
    Ok (VList [])
  else if String.eqb url "http://webapi.legistar.com/v1/seattle/Persons/42" then
    Ok (VDict [("PersonId", VInt 42); ("PersonFullName", VStr "Ada Park")])
  else Err ValueError.

(** The sample event as the Fetcher returns it. *)
Definition sample_fetched : value :=
  VList [VDict
    [("EventId", VInt 4052); ("EventBodyName", VStr "City Council");
     ("EventItems", VList
        [VDict [("EventItemId", VInt 11); ("EventItemTitle", VStr "Budget");
                ("EventItemVoteInfo", VList
                   [VDict [("VoteId", VInt 71); ("VoteValueName", VStr "In Favor");
                           ("VotePersonId", VInt 42);
                           ("PersonInfo", VDict [("PersonId", VInt 42);
                                                 ("PersonFullName", VStr "Ada Park")])]])];
         VDict [("EventItemId", VInt 12); ("EventItemTitle", VStr "Roads");
                ("EventItemVoteInfo", VList [])]])]].

(** A server that answers every address with the object of an error. *)
Definition failing_server (url : string) : result value :=
  Ok (VDict [("Message", VStr "An error has occurred.")]).

(** A server that knows one person, a vote as it sends it, the vote
    with the person filled in, and the vote normalized. *)
Definition person_server (url : string) : result value :=
  Ok (sample_person (VInt 42)).
Definition vote_sent : value :=
  VDict [("VoteId", VInt 71); ("VoteValueName", VStr "In Favor");
         ("VotePersonId", VInt 42)].
Definition vote_fetched : value :=
  VDict [("VoteId", VInt 71); ("VoteValueName", VStr "In Favor");
         ("VotePersonId", VInt 42); ("PersonInfo", sample_person (VInt 42))].
Definition vote_normalized : value :=
  VDict [("decision", VStr "In Favor"); ("legistar_event_item_vote_id", VInt 71);
         ("person", VDict
            [("full_name", VStr "Ada Park"); ("email", VStr "ada@example.org");
             ("phone", VNone); ("website", VNone);
             ("legistar_person_id", VInt 42)])].

(** An address under the base address of the client. *)
Definition under_base (client url : string) : Prop :=
  String.prefix (LEGISTAR_BASE client) url = true.

(** *** Notions the further statements on the Normalizer use *)

(** The display name of the event item is on the ignore list. *)
Definition ignored (ignore : list string) (item : value) : bool :=
  match item_display_name item with
  | inr name => py_in name ignore
  | inl _ => false
  end.

(** [int(v[k])] as a value. *)
Definition int_field (v : value) (k : string) : result value :=
  x <- subscript v k ;;
  z <- py_int x ;;
  Ok (VInt z).

(** A canonical attachment holds the name, the link and the identifier
    (through [int]) of the upstream one. *)
Definition attachment_copied (raw out : value) : Prop :=
  subscript out "name" = subscript raw "MatterAttachmentName" /\
  subscript out "uri" = subscript raw "MatterAttachmentHyperlink" /\
  subscript out "legistar_matter_attachment_id" = int_field raw "MatterAttachmentId".

(** A canonical vote holds the value, the identifier (through [int]) and
    the person of the upstream one. *)
Definition vote_copied (raw out : value) : Prop :=
  subscript out "decision" = subscript raw "VoteValueName" /\
  subscript out "legistar_event_item_vote_id" = int_field raw "VoteId" /\
  subscript2 out "person" "full_name" = subscript2 raw "PersonInfo" "PersonFullName" /\
  subscript2 out "person" "email" = subscript2 raw "PersonInfo" "PersonEmail" /\
  subscript2 out "person" "phone" = subscript2 raw "PersonInfo" "PersonPhone" /\
  subscript2 out "person" "website" = subscript2 raw "PersonInfo" "PersonWWW" /\
  subscript2 out "person" "legistar_person_id" = subscript2 raw "PersonInfo" "PersonId".

(** * Properties *)

(** ** The built-ins on examples *)

Example int_of_string_plain : int_of_string "12" = Some 12.
Proof. reflexivity. Qed.

Example int_of_string_padded : int_of_string "  -1_000 " = Some (-1000).
Proof. reflexivity. Qed.

Example int_of_string_decimal_text : int_of_string "12.0" = None.
Proof. reflexivity. Qed.

Example py_int_float : py_int (VFloat (-7 # 2)) = Ok (-3).
Proof. reflexivity. Qed.

Example strptime_afternoon :
  strptime_event_format "2019-03-04T3:00 PM" = Some (mkDatetime 2019 3 4 15 0).
Proof. reflexivity. Qed.

Example strptime_midnight :
  strptime_event_format "2019-12-31T12:05 am" = Some (mkDatetime 2019 12 31 0 5).
Proof. reflexivity. Qed.

Example strptime_no_meridiem : strptime_event_format "2019-03-04T15:00" = None.
Proof. reflexivity. Qed.

Example strptime_no_such_day : strptime_event_format "2019-02-30T3:00 PM" = None.
Proof. reflexivity. Qed.

(** ** The error monad *)

Lemma bind_Ok {A B : Type} (m : result A) (k : A -> result B) (b : B) :
  bind m k = Ok b -> exists a, m = Ok a /\ k a = Ok b.
Proof.
  destruct m as [e | a]; simpl; intros H.
  - discriminate H.
  - exists a. split; [reflexivity | exact H].
Qed.

Lemma bind_Err {A B : Type} (m : result A) (k : A -> result B) (e : exn) :
  m = Err e -> bind m k = Err e.
Proof. intros ->. reflexivity. Qed.

Lemma bind_of_Ok {A B : Type} (m : result A) (k : A -> result B) (a : A) :
  m = Ok a -> bind m k = k a.
Proof. intros ->. reflexivity. Qed.

(** Splits a successful sequence of binds in the hypotheses into its
    steps. *)
Ltac inv_bind :=
  repeat match goal with
  | H : bind _ _ = Ok _ |- _ =>
      let a := fresh "x" in
      let Ha := fresh "Hx" in
      apply bind_Ok in H; destruct H as (a & Ha & H)
  | H : Ok _ = Ok _ |- _ => injection H as H
  | H : inr _ = inr _ |- _ => injection H as H
  | H : Err _ = Ok _ |- _ => discriminate H
  | H : inl _ = Ok _ |- _ => discriminate H
  end.

Lemma mapM_Forall2 {A B : Type} (f : A -> result B) (l : list A) (bs : list B) :
  mapM f l = Ok bs <-> Forall2 (fun a b => f a = Ok b) l bs.
Proof.
  revert bs. induction l as [| a l IH]; intros bs; simpl.
  - split; intros H.
    + injection H as <-. constructor.
    + inversion H. reflexivity.
  - split; intros H.
    + inv_bind. subst bs. constructor; [assumption | now apply IH].
    + inversion H as [| ? b ? bs' Hab Hrest]; subst.
      rewrite Hab. simpl. apply IH in Hrest. rewrite Hrest. reflexivity.
Qed.

Lemma mapM_total {A B : Type} (f : A -> result B) (l : list A) :
  (forall a, In a l -> exists b, f a = Ok b) -> exists bs, mapM f l = Ok bs.
Proof.
  induction l as [| a l IH]; intros H; simpl.
  - now exists [].
  - destruct (H a (or_introl eq_refl)) as (b & Hb).
    destruct IH as (bs & Hbs); [intros; apply H; now right |].
    exists (b :: bs). rewrite Hb, Hbs. reflexivity.
Qed.

Lemma mapM_length {A B : Type} (f : A -> result B) (l : list A) (bs : list B) :
  mapM f l = Ok bs -> List.length bs = List.length l.
Proof.
  intros H. apply mapM_Forall2 in H. symmetry. eapply Forall2_length; eassumption.
Qed.

Lemma mapM_app {A B : Type} (f : A -> result B) (l1 l2 : list A) :
  mapM f (l1 ++ l2) =
  (bs1 <- mapM f l1 ;; bs2 <- mapM f l2 ;; Ok (bs1 ++ bs2)%list).
Proof.
  induction l1 as [| a l1 IH]; simpl.
  - destruct (mapM f l2); reflexivity.
  - destruct (f a) as [e | b]; simpl; [reflexivity |].
    rewrite IH. destruct (mapM f l1) as [e | bs1]; simpl; [reflexivity |].
    destruct (mapM f l2); reflexivity.
Qed.

(** ** Dictionaries *)

Lemma dict_get_set_same (k : string) (v : value) (d : dict) :
  dict_get k (dict_set k v d) = Some v.
Proof.
  induction d as [| [k' v'] d IH]; simpl.
  - now rewrite String.eqb_refl.
  - destruct (String.eqb k k') eqn:E; simpl; rewrite E; [reflexivity | exact IH].
Qed.

Lemma dict_get_set_other (k k' : string) (v : value) (d : dict) :
  k <> k' -> dict_get k (dict_set k' v d) = dict_get k d.
Proof.
  intros Hne. induction d as [| [k0 v0] d IH]; simpl.
  - destruct (String.eqb k k') eqn:E; [| reflexivity].
    apply String.eqb_eq in E. contradiction.
  - destruct (String.eqb k' k0) eqn:E; simpl.
    + apply String.eqb_eq in E. subst k0.
      destruct (String.eqb k k') eqn:E'; [| reflexivity].
      apply String.eqb_eq in E'. contradiction.
    + destruct (String.eqb k k0); [reflexivity | exact IH].
Qed.

(** ** The score map *)




Lemma key_eqb_refl (k : value) : hashable k = true -> key_eqb k k = true.
Proof.
  unfold key_eqb.
  destruct k; simpl; intros H; try discriminate H; try reflexivity;
    try apply Qeq_bool_refl.
  - apply String.eqb_refl.
  - unfold datetime_eqb. now rewrite !Z.eqb_refl.
Qed.

Lemma event_key_hashable (e k : value) : event_key e = Ok k -> hashable k = true.
Proof.
  unfold event_key. intros H. inv_bind.
  destruct (hashable x) eqn:E; [| discriminate H].
  injection H as <-. exact E.
Qed.

Lemma scores_get_set_same (k : value) (s : Z) (d : score_map) :
  hashable k = true -> scores_get k (scores_set k s d) = Some s.
Proof.
  intros Hk. induction d as [| [k' s'] d IH]; simpl.
  - now rewrite key_eqb_refl.
  - destruct (key_eqb k k') eqn:E; simpl; rewrite E; [reflexivity | exact IH].
Qed.

(** Storing under one key never removes the entry of another. *)
Lemma scores_get_set_kept (k k' : value) (s x : Z) (d : score_map) :
  scores_get k d = Some x -> exists y, scores_get k (scores_set k' s d) = Some y.
Proof.
  induction d as [| [k0 s0] d IH]; simpl; intros H.
  - discriminate H.
  - destruct (key_eqb k' k0) eqn:E'; simpl.
    + destruct (key_eqb k k0); [now exists s | now exists x].
    + destruct (key_eqb k k0); [now exists s0 | now apply IH].
Qed.

Lemma scores_set_keys (k k' : value) (s : Z) (d : score_map) :
  In k (map fst (scores_set k' s d)) -> In k (map fst d) \/ k = k'.
Proof.
  induction d as [| [k0 s0] d IH]; simpl.
  - intros [H | []]. now right.
  - destruct (key_eqb k' k0); simpl.
    + intros [H | H]; left; [now left | now right].
    + intros [H | H]; [left; now left |].
      destruct (IH H) as [H' | H']; [left; now right | now right].
Qed.

Lemma scores_set_values (x s : Z) (k : value) (d : score_map) :
  In x (map snd (scores_set k s d)) -> In x (map snd d) \/ x = s.
Proof.
  induction d as [| [k0 s0] d IH]; simpl.
  - intros [H | []]. now right.
  - destruct (key_eqb k k0); simpl.
    + intros [H | H]; [now right | left; now right].
    + intros [H | H]; [left; now left |].
      destruct (IH H) as [H' | H']; [left; now right | now right].
Qed.

Lemma scores_get_In (k : value) (x : Z) (d : score_map) :
  scores_get k d = Some x -> In x (map snd d).
Proof.
  induction d as [| [k0 s0] d IH]; simpl; intros H.
  - discriminate H.
  - destruct (key_eqb k k0); [injection H as ->; now left | right; now apply IH].
Qed.


(** A key equal to none of the keys goes last, under its own spelling. *)
Lemma scores_set_fresh (k : value) (s : Z) (d : score_map) :
  existsb (key_eqb k) (map fst d) = false -> scores_set k s d = (d ++ [(k, s)])%list.
Proof.
  induction d as [| [k0 s0] d IH]; simpl; intros H; [reflexivity |].
  apply orb_false_iff in H. destruct H as [H1 H2].
  rewrite H1, IH by exact H2. reflexivity.
Qed.

(** A key equal to one of the keys adds no entry. *)
Lemma scores_set_known (k : value) (s : Z) (d : score_map) :
  existsb (key_eqb k) (map fst d) = true ->
  List.length (scores_set k s d) = List.length d.
Proof.
  induction d as [| [k0 s0] d IH]; simpl; intros H; [discriminate H |].
  destruct (key_eqb k k0); simpl in *; [reflexivity |].
  now rewrite IH.
Qed.

(** ** The Matcher *)

Section MatcherProperties.

Variable token_set_ratio : list string -> list value -> Z.
Variable targets : list string.

Local Abbreviation score := (event_match_score token_set_ratio targets).
Local Abbreviation step := (match_event token_set_ratio targets).
Local Abbreviation loop := (match_loop token_set_ratio targets).

(** One turn of the loop, read back from its result. *)
Lemma match_event_Ok (st st' : match_state) (e : value) :
  step st e = Ok st' ->
  exists names k,
    event_minutes_items e = Ok names /\ event_key e = Ok k /\
    score e = Ok (token_set_ratio targets names) /\
    st_scores st' = scores_set k (token_set_ratio targets names) (st_scores st) /\
    st_calls st' = (st_calls st ++ [(targets, names)])%list /\
    (if st_max_score st <? token_set_ratio targets names
     then st_max_score st' = token_set_ratio targets names /\ st_selected st' = e
     else st_max_score st' = st_max_score st /\ st_selected st' = st_selected st).
Proof.
  unfold match_event, event_match_score. intros H. inv_bind.
  exists x, x0. rewrite Hx. simpl.
  repeat split; try assumption;
    destruct (st_max_score st <? token_set_ratio targets x);
    injection H as <-; simpl; auto.
Qed.

(** A candidate whose names and identifier can be read takes one turn. *)
Lemma match_event_total (st : match_state) (e : value) (s : Z) (k : value) :
  score e = Ok s -> event_key e = Ok k -> exists st', step st e = Ok st'.
Proof.
  unfold match_event, event_match_score. intros Hs Hk.
  destruct (event_minutes_items e) as [err | names]; simpl in *; [discriminate Hs |].
  rewrite Hk. simpl.
  destruct (st_max_score st <? token_set_ratio targets names); eexists; reflexivity.
Qed.

Lemma match_loop_total (events : list value) (st : match_state) :
  (forall e, In e events -> exists s, score e = Ok s) ->
  (forall e, In e events -> exists k, event_key e = Ok k) ->
  exists st', loop st events = Ok st'.
Proof.
  revert st. induction events as [| e events IH]; intros st Hs Hk; simpl.
  - now exists st.
  - destruct (Hs e (or_introl eq_refl)) as (s & Hse).
    destruct (Hk e (or_introl eq_refl)) as (k & Hke).
    destruct (match_event_total st e s k Hse Hke) as (st1 & H1).
    rewrite H1. simpl. apply IH; intros; [apply Hs | apply Hk]; now right.
Qed.

(** What the loop selects: either no score exceeds the maximum it started
    with and the selection is untouched, or it holds the first of the
    candidates with the greatest score. *)
Lemma match_loop_selects (events : list value) (st st' : match_state) :
  loop st events = Ok st' ->
  ((forall e s, In e events -> score e = Ok s -> s <= st_max_score st) /\
   st_max_score st' = st_max_score st /\ st_selected st' = st_selected st)
  \/
  (exists pre e post m,
     events = (pre ++ e :: post)%list /\ score e = Ok m /\ st_max_score st < m /\
     (forall e' s, In e' pre -> score e' = Ok s -> s < m) /\
     (forall e' s, In e' post -> score e' = Ok s -> s <= m) /\
     st_max_score st' = m /\ st_selected st' = e).
Proof.
  revert st. induction events as [| e events IH]; intros st H; simpl in H.
  - injection H as <-. left. repeat split. intros e s [].
  - inv_bind. rename x into st1.
    destruct (match_event_Ok _ _ _ Hx) as (names & k & _ & _ & Hs & _ & _ & Hsel).
    set (m1 := token_set_ratio targets names) in *.
    destruct (IH st1 H) as [(Hle & Hmax & Hsel') | (pre & e' & post & m & -> & Hm & Hlt & Hpre & Hpost & Hmax & Hsel')].
    + destruct (Z.ltb_spec (st_max_score st) m1) as [Hgt | Hge].
      * destruct Hsel as [Hm1 He]. right. exists [], e, events, m1.
        simpl. repeat split; try assumption; try congruence.
        -- intros e' s [].
        -- intros e' s Hin Hs'. specialize (Hle e' s Hin Hs'). lia.
      * destruct Hsel as [Hm1 He]. left. repeat split; try congruence.
        intros e' s [<- | Hin] Hs'.
        -- rewrite Hs in Hs'. injection Hs' as <-. exact Hge.
        -- specialize (Hle e' s Hin Hs'). lia.
    + assert (Hst : st_max_score st <= st_max_score st1 /\ m1 <= st_max_score st1).
      { destruct (Z.ltb_spec (st_max_score st) m1); destruct Hsel as [-> _]; lia. }
      right. exists (e :: pre), e', post, m. simpl.
      repeat split; try assumption; try lia.
      intros e0 s [<- | Hin] Hs'.
      * rewrite Hs in Hs'. injection Hs' as <-. lia.
      * now apply (Hpre e0).
Qed.

(** The score map the loop leaves: an entry for every candidate. *)
Lemma match_loop_entries (events : list value) (st st' : match_state) :
  loop st events = Ok st' ->
  (forall k x, scores_get k (st_scores st) = Some x ->
               exists y, scores_get k (st_scores st') = Some y) /\
  (forall e, In e events ->
     exists k y, event_key e = Ok k /\ scores_get k (st_scores st') = Some y).
Proof.
  revert st. induction events as [| e events IH]; intros st H; simpl in H.
  - injection H as <-. split; [eauto | intros e []].
  - inv_bind. rename x into st1.
    destruct (match_event_Ok _ _ _ Hx) as (names & k & _ & Hk & _ & Hsc & _).
    destruct (IH st1 H) as [Hkept Hnew]. split.
    + intros k0 x0 H0.
      destruct (scores_get_set_kept k0 k (token_set_ratio targets names) x0 _ H0) as (y & Hy).
      rewrite <- Hsc in Hy. eauto.
    + intros e0 [<- | Hin]; [| now apply Hnew].
      assert (Hget : scores_get k (st_scores st1) = Some (token_set_ratio targets names)).
      { rewrite Hsc. apply scores_get_set_same. eapply event_key_hashable; eassumption. }
      destruct (Hkept _ _ Hget) as (y & Hy). now exists k, y.
Qed.

(** Every key of the score map is the identifier of a candidate, and
    every score in it the score of a candidate. *)
Lemma match_loop_provenance (events : list value) (st st' : match_state) :
  loop st events = Ok st' ->
  (forall k, In k (map fst (st_scores st')) ->
     In k (map fst (st_scores st)) \/ exists e, In e events /\ event_key e = Ok k) /\
  (forall x, In x (map snd (st_scores st')) ->
     In x (map snd (st_scores st)) \/ exists e, In e events /\ score e = Ok x).
Proof.
  revert st. induction events as [| e events IH]; intros st H; simpl in H.
  - injection H as <-. split; intros; now left.
  - inv_bind. rename x into st1.
    destruct (match_event_Ok _ _ _ Hx) as (names & k & _ & Hk & Hs & Hsc & _).
    destruct (IH st1 H) as [Hkeys Hvals]. split.
    + intros k0 H0. destruct (Hkeys k0 H0) as [H1 | (e0 & Hin & He0)].
      * rewrite Hsc in H1. destruct (scores_set_keys _ _ _ _ H1) as [H2 | ->].
        -- now left.
        -- right. exists e. split; [now left | assumption].
      * right. exists e0. split; [now right | assumption].
    + intros x0 H0. destruct (Hvals x0 H0) as [H1 | (e0 & Hin & He0)].
      * rewrite Hsc in H1. destruct (scores_set_values _ _ _ _ H1) as [H2 | ->].
        -- now left.
        -- right. exists e. split; [now left | assumption].
      * right. exists e0. split; [now right | assumption].
Qed.






End MatcherProperties.

Example sample_scores :
  map (event_match_score sample_ratio ["budget"; "roads"])
      [candidate_empty; candidate_title; candidate_matter; candidate_both]
  = [Ok 0; Ok 25; Ok 25; Ok 50].
Proof. reflexivity. Qed.

(** *** Exactly one candidate *)



(** *** Two or more candidates *)

Lemma matcher_many (token_set_ratio : list string -> list value -> Z) (str_lower : string -> string)
    (targets : list string) (events : list value) :
  (2 <= List.length events)%nat ->
  get_matching_legistar_event_by_minutes_match token_set_ratio str_lower targets events =
  (st <- match_loop token_set_ratio (map str_lower targets) (mkMatchState 0 VNone [] []) events ;;
   Ok (mkAgendaMatchResults (st_selected st) (st_scores st), st_calls st)).
Proof.
  destruct events as [| e1 [| e2 events]]; simpl; intros H; try lia. reflexivity.
Qed.

(** C4, as the code has it. With two or more candidates whose names and
    identifiers can be read, the Matcher returns; when some score is
    greater than 0, [selected_event] is the first candidate, in input
    order, with the greatest score (every candidate before it scores
    strictly less, none after it scores more, so a later candidate with
    an equal score never replaces it); when no score is greater than 0,
    [selected_event] is [None]. *)
Theorem matcher_selects_first_maximum
    (token_set_ratio : list string -> list value -> Z) (str_lower : string -> string)
    (targets : list string) (events : list value) :
  (2 <= List.length events)%nat ->
  (forall e, In e events ->
     exists s, event_match_score token_set_ratio (map str_lower targets) e = Ok s) ->
  (forall e, In e events -> exists k, event_key e = Ok k) ->
  exists r calls,
    get_matching_legistar_event_by_minutes_match token_set_ratio str_lower targets events
    = Ok (r, calls) /\
    ((exists pre e post m,
        events = (pre ++ e :: post)%list /\ selected_event r = e /\
        event_match_score token_set_ratio (map str_lower targets) e = Ok m /\ 0 < m /\
        (forall e' s, In e' pre ->
           event_match_score token_set_ratio (map str_lower targets) e' = Ok s -> s < m) /\
        (forall e' s, In e' post ->
           event_match_score token_set_ratio (map str_lower targets) e' = Ok s -> s <= m))
     \/
     ((forall e s, In e events ->
         event_match_score token_set_ratio (map str_lower targets) e = Ok s -> s <= 0) /\
      selected_event r = VNone)).
Proof.
  intros Hlen Hs Hk. rewrite matcher_many by exact Hlen.
  destruct (match_loop_total token_set_ratio (map str_lower targets) events
              (mkMatchState 0 VNone [] []) Hs Hk) as (st & Hst).
  rewrite Hst. simpl. eexists. eexists. split; [reflexivity |]. simpl.
  destruct (match_loop_selects _ _ _ _ _ Hst)
    as [(Hle & _ & Hsel) | (pre & e & post & m & Hev & Hm & Hlt & Hpre & Hpost & _ & Hsel)].
  - right. split; assumption.
  - left. exists pre, e, post, m. repeat split; assumption.
Qed.

Lemma matcher_selects_first_maximum_witness :
  exists r calls,
    get_matching_legistar_event_by_minutes_match sample_ratio lower ["Budget"; "Roads"]
      [candidate_empty; candidate_title; candidate_matter] = Ok (r, calls) /\
    ((exists pre e post m,
        [candidate_empty; candidate_title; candidate_matter] = (pre ++ e :: post)%list /\
        selected_event r = e /\
        event_match_score sample_ratio (map lower ["Budget"; "Roads"]) e = Ok m /\ 0 < m /\
        (forall e' s, In e' pre ->
           event_match_score sample_ratio (map lower ["Budget"; "Roads"]) e' = Ok s -> s < m) /\
        (forall e' s, In e' post ->
           event_match_score sample_ratio (map lower ["Budget"; "Roads"]) e' = Ok s -> s <= m))
     \/
     ((forall e s, In e [candidate_empty; candidate_title; candidate_matter] ->
         event_match_score sample_ratio (map lower ["Budget"; "Roads"]) e = Ok s -> s <= 0) /\
      selected_event r = VNone)).
Proof.
  apply (matcher_selects_first_maximum sample_ratio lower ["Budget"; "Roads"]
           [candidate_empty; candidate_title; candidate_matter]).
  - simpl. lia.
  - intros e [<- | [<- | [<- | []]]]; eexists; reflexivity.
  - intros e [<- | [<- | [<- | []]]]; eexists; reflexivity.
Defined.

(** On these candidates the tie between the second and the third goes to
    the second. *)
Example matcher_tie_goes_to_first :
  get_matching_legistar_event_by_minutes_match sample_ratio lower ["Budget"; "Roads"]
    [candidate_empty; candidate_title; candidate_matter]
  = Ok (mkAgendaMatchResults candidate_title [(VInt 1, 0); (VInt 2, 25); (VInt 3, 25)],
        [(["budget"; "roads"], []);
         (["budget"; "roads"], [VStr "budget"]);
         (["budget"; "roads"], [VStr "budget"])]).
Proof. reflexivity. Qed.

(** C4 as stated fails: two candidates without items both score 0, the
    greatest score, and the first of them is not selected: nothing is. *)
Lemma matcher_first_maximum_counterexample :
  event_match_score sample_ratio (map lower ["Budget"]) candidate_empty = Ok 0 /\
  event_match_score sample_ratio (map lower ["Budget"]) candidate_empty_too = Ok 0 /\
  exists r calls,
    get_matching_legistar_event_by_minutes_match sample_ratio lower ["Budget"]
      [candidate_empty; candidate_empty_too] = Ok (r, calls) /\
    selected_event r = VNone /\ selected_event r <> candidate_empty.
Proof.
  split; [reflexivity | split; [reflexivity |]].
  eexists. eexists. split; [reflexivity |]. simpl. split; [reflexivity | discriminate].
Qed.

(** What an item shows is what the loop body takes as its name. *)
Lemma shows_name_display (item name : value) :
  shows_name item name <-> item_display_name item = Ok name.
Proof.
  unfold shows_name, item_display_name. split.
  - intros (mn & Hmn & Hname). rewrite (bind_of_Ok _ _ _ Hmn).
    now destruct (truthy mn).
  - intros H. apply bind_Ok in H. destruct H as (mn & Hmn & H).
    exists mn. split; [exact Hmn |]. now destruct (truthy mn).
Qed.

(** The names the loop collects for a candidate are what its items
    show. *)
Lemma event_minutes_items_shows (event : value) (names : list value) :
  shows_names event names <-> event_minutes_items event = Ok names.
Proof.
  unfold shows_names, event_minutes_items. split.
  - intros (items & l & Hitems & Hl & Hnames).
    rewrite (bind_of_Ok _ _ _ Hitems), (bind_of_Ok _ _ _ Hl).
    apply mapM_Forall2.
    eapply Forall2_impl; [| exact Hnames]. intros item name. apply shows_name_display.
  - intros H.
    apply bind_Ok in H. destruct H as (items & Hitems & H).
    apply bind_Ok in H. destruct H as (l & Hl & H).
    exists items, l. repeat split; [exact Hitems | exact Hl |].
    apply mapM_Forall2 in H.
    eapply Forall2_impl; [| exact H]. intros item name. apply shows_name_display.
Qed.

(** The key of a candidate is what it carries under ["EventId"], when
    that can be a key. *)
Lemma event_key_Ok (e k : value) :
  event_key e = Ok k <-> subscript e "EventId" = Ok k /\ hashable k = true.
Proof.
  unfold event_key. split.
  - intros H. apply bind_Ok in H. destruct H as (k' & Hk' & H).
    destruct (hashable k') eqn:E; [| discriminate H].
    injection H as <-. now split.
  - intros [Hk Hh]. rewrite Hk. simpl. now rewrite Hh.
Qed.

(** C10. With two or more candidates that all score 0 (the similarity
    of the lower-cased targets and the names the items of the candidate
    show is 0), the Matcher returns [None] as [selected_event], and the
    score map still holds an entry for every candidate: under what each
    candidate carries as ["EventId"] the map holds 0, and the map holds
    nothing else, every key of it being the ["EventId"] of a candidate
    and every score 0. *)
Theorem matcher_all_scores_zero
    (token_set_ratio : list string -> list value -> Z) (str_lower : string -> string)
    (targets : list string) (events : list value) :
  (2 <= List.length events)%nat ->
  (forall e, In e events ->
     exists names,
       shows_names e names /\ token_set_ratio (map str_lower targets) names = 0) ->
  (forall e, In e events ->
     exists k, subscript e "EventId" = Ok k /\ hashable k = true) ->
  exists r calls,
    get_matching_legistar_event_by_minutes_match token_set_ratio str_lower targets events
    = Ok (r, calls) /\
    selected_event r = VNone /\
    (forall e, In e events ->
       exists k, subscript e "EventId" = Ok k /\
                 scores_get k (match_scores r) = Some 0) /\
    (forall k s, In (k, s) (match_scores r) ->
       s = 0 /\ exists e, In e events /\ subscript e "EventId" = Ok k).
Proof.
  intros Hlen Hzeros Hid.
  assert (Hs : forall e, In e events ->
            event_match_score token_set_ratio (map str_lower targets) e = Ok 0).
  { intros e Hin. destruct (Hzeros e Hin) as (names & Hnames & Hzero).
    apply event_minutes_items_shows in Hnames.
    unfold event_match_score. rewrite Hnames. simpl. now rewrite Hzero. }
  assert (Hk : forall e, In e events -> exists k, event_key e = Ok k).
  { intros e Hin. destruct (Hid e Hin) as (k & Hk). exists k. now apply event_key_Ok. }
  rewrite matcher_many by exact Hlen.
  destruct (match_loop_total token_set_ratio (map str_lower targets) events
              (mkMatchState 0 VNone [] [])) as (st & Hst); [eauto | assumption |].
  rewrite Hst. simpl. eexists. eexists. split; [reflexivity |]. simpl.
  destruct (match_loop_provenance _ _ _ _ _ Hst) as [Hkeys Hvals].
  assert (Hzero : forall x, In x (map snd (st_scores st)) -> x = 0).
  { intros x Hx. destruct (Hvals x Hx) as [[] | (e0 & Hin0 & Hs0)].
    rewrite Hs in Hs0 by assumption. now injection Hs0. }
  repeat split.
  - destruct (match_loop_selects _ _ _ _ _ Hst)
      as [(_ & _ & Hsel) | (pre & e & post & m & Hev & Hm & Hlt & _)].
    + exact Hsel.
    + rewrite Hs in Hm by (rewrite Hev; apply in_elt).
      injection Hm as <-. simpl in Hlt. lia.
  - intros e Hin.
    destruct (match_loop_entries _ _ _ _ _ Hst) as [_ Hnew].
    destruct (Hnew e Hin) as (k & y & Hke & Hget).
    apply event_key_Ok in Hke. destruct Hke as [Hke _].
    exists k. split; [assumption |].
    now rewrite Hget, (Hzero y (scores_get_In _ _ _ Hget)).
  - apply Hzero. apply in_map_iff. now exists (k, s).
  - destruct (Hkeys k) as [[] | (e & Hin & Hke)].
    + apply in_map_iff. now exists (k, s).
    + apply event_key_Ok in Hke. destruct Hke as [Hke _]. now exists e.
Qed.

Lemma matcher_all_scores_zero_witness :
  get_matching_legistar_event_by_minutes_match sample_ratio lower ["Parks"]
    [candidate_title; candidate_empty; candidate_matter]
  = Ok (mkAgendaMatchResults VNone [(VInt 2, 0); (VInt 1, 0); (VInt 3, 0)],
        [(["parks"], [VStr "budget"]); (["parks"], []);
         (["parks"], [VStr "budget"])]) /\
  exists r calls,
    get_matching_legistar_event_by_minutes_match sample_ratio lower ["Parks"]
      [candidate_title; candidate_empty; candidate_matter] = Ok (r, calls) /\
    selected_event r = VNone /\
    (forall e, In e [candidate_title; candidate_empty; candidate_matter] ->
       exists k, subscript e "EventId" = Ok k /\
                 scores_get k (match_scores r) = Some 0) /\
    (forall k s, In (k, s) (match_scores r) ->
       s = 0 /\
       exists e, In e [candidate_title; candidate_empty; candidate_matter] /\
                 subscript e "EventId" = Ok k).
Proof.
  split; [reflexivity |].
  apply (matcher_all_scores_zero sample_ratio lower ["Parks"]
           [candidate_title; candidate_empty; candidate_matter]).
  - simpl. lia.
  - intros e [<- | [<- | [<- | []]]]; eexists;
      (split; [apply event_minutes_items_shows; reflexivity | reflexivity]).
  - intros e [<- | [<- | [<- | []]]]; eexists; split; reflexivity.
Defined.

(** *** The keys of the score map *)




(** Numbers that are equal are one key, whatever their type: a candidate
    under [2.0] shares the entry of a candidate under [2], and the entry
    keeps the key it was made with. *)
Example matcher_scores_equal_numbers :
  option_map (fun rc => match_scores (fst rc))
    (match get_matching_legistar_event_by_minutes_match sample_ratio lower ["Budget"]
             [candidate_title; sample_candidate (VFloat (2 # 1)) []] with
     | inr rc => Some rc
     | inl _ => None
     end)
  = Some [(VInt 2, 0)].
Proof. reflexivity. Qed.

(** ** The Normalizer *)

(** *** The minutes item of one event item *)

Lemma dict_set_twice (k : string) (v : value) (d : dict) :
  dict_set k v (dict_set k v d) = dict_set k v d.
Proof.
  induction d as [| [k' v'] d IH]; simpl.
  - now rewrite String.eqb_refl.
  - destruct (String.eqb k k') eqn:E; simpl; rewrite E; [reflexivity | now rewrite IH].
Qed.

(** The vote loop: the votes are those of [parse_vote], in order, and
    the dictionary holds the decision only when the loop ran at all. *)
Lemma votes_loop_Ok (item flag : value) (vote_infos acc votes : list value)
    (minutes_item minutes_item' : dict) :
  subscript item "EventItemPassedFlagName" = Ok flag ->
  votes_loop item vote_infos acc minutes_item = Ok (votes, minutes_item') ->
  exists vs,
    mapM parse_vote vote_infos = Ok vs /\ votes = (acc ++ vs)%list /\
    minutes_item' = match vote_infos with
                    | [] => minutes_item
                    | _ => dict_set "decision" flag minutes_item
                    end.
Proof.
  intros Hflag. revert acc minutes_item.
  induction vote_infos as [| vi rest IH]; intros acc minutes_item H; simpl in H.
  - injection H as <- <-. exists []. now rewrite app_nil_r.
  - apply bind_Ok in H. destruct H as (v & Hv & H).
    rewrite Hflag in H. simpl in H.
    destruct (IH _ _ H) as (vs & Hvs & -> & ->).
    exists (v :: vs). simpl. rewrite Hv, Hvs. simpl.
    rewrite <- app_assoc. repeat split.
    destruct rest; [reflexivity | apply dict_set_twice].
Qed.

(** Every minutes item the loop body emits has this shape. *)
Lemma parse_event_item_Some (ignore : list string) (item mi : value) :
  parse_event_item ignore item = Ok (Some mi) ->
  exists name matter index id attachments flag vote_infos votes,
    item_display_name item = Ok name /\ item_matter item = Ok matter /\
    py_in name ignore = false /\
    item_index item = Ok index /\ item_id item = Ok id /\
    item_attachments item = Ok attachments /\
    subscript item "EventItemPassedFlagName" = Ok flag /\
    item_vote_infos item flag = Ok vote_infos /\
    mapM parse_vote vote_infos = Ok votes /\
    mi = minutes_item_dict name matter index id
           (decision_entry flag vote_infos) votes attachments.
Proof.
  unfold parse_event_item. intros H.
  apply bind_Ok in H. destruct H as (name & Hname & H).
  apply bind_Ok in H. destruct H as (matter & Hmatter & H).
  destruct (py_in name ignore) eqn:Hin; [discriminate H |].
  apply bind_Ok in H. destruct H as (index & Hindex & H).
  apply bind_Ok in H. destruct H as (id0 & Hid0 & H).
  apply bind_Ok in H. destruct H as (id & Hid & H).
  apply bind_Ok in H. destruct H as (a0 & Ha0 & H).
  apply bind_Ok in H. destruct H as (a1 & Ha1 & H).
  apply bind_Ok in H. destruct H as (atts & Hatts & H).
  apply bind_Ok in H. destruct H as ([votes mi'] & Hvotes & H).
  injection H as <-. simpl fst. simpl snd.
  unfold item_votes in Hvotes.
  apply bind_Ok in Hvotes. destruct Hvotes as (flag & Hflag & Hvotes).
  assert (Hshape : exists vote_infos,
             item_vote_infos item flag = Ok vote_infos /\
             mapM parse_vote vote_infos = Ok votes /\
             VDict (dict_set "attachments" (VList atts)
                      (dict_set "votes" (VList votes) mi'))
             = minutes_item_dict name matter index id
                 (decision_entry flag vote_infos) votes atts).
  { unfold item_vote_infos, decision_entry. destruct (truthy flag).
    - apply bind_Ok in Hvotes. destruct Hvotes as (v0 & Hv0 & Hvotes).
      apply bind_Ok in Hvotes. destruct Hvotes as (infos & Hinfos & Hvotes).
      destruct (votes_loop_Ok _ _ _ _ _ _ _ Hflag Hvotes) as (vs & Hvs & -> & ->).
      exists infos. rewrite Hv0. simpl. split; [assumption |]. split; [assumption |].
      destruct infos; reflexivity.
    - injection Hvotes as <- <-. exists []. repeat split. }
  destruct Hshape as (vote_infos & Hinfos & Hvs & ->).
  exists name, matter, index, id, atts, flag, vote_infos, votes.
  unfold item_id, item_attachments.
  rewrite Hid0, Ha0. simpl. rewrite Ha1. simpl.
  repeat split; assumption.
Qed.

Example parse_item_voted :
  parse_event_item [] item_voted
  = Ok (Some (VDict
      [("name", VStr "Budget"); ("matter", VStr "Budget"); ("index", VInt 2);
       ("legistar_event_item_id", VInt 11); ("decision", VStr "Pass");
       ("votes", VList [VDict
          [("decision", VStr "In Favor"); ("legistar_event_item_vote_id", VInt 71);
           ("person", VDict
              [("full_name", VStr "Ada Park"); ("email", VStr "ada@example.org");
               ("phone", VNone); ("website", VNone);
               ("legistar_person_id", VStr "42")])]]);
       ("attachments", VList [VDict
          [("name", VStr "Summary"); ("uri", VStr "http://example.org/summary.pdf");
           ("legistar_matter_attachment_id", VInt 301)]])])).
Proof. reflexivity. Qed.

Example parse_item_unflagged :
  parse_event_item [] item_unflagged
  = Ok (Some (VDict
      [("name", VStr "Call to order"); ("matter", VStr "CB 1"); ("index", VInt (-1));
       ("legistar_event_item_id", VInt 13); ("decision", VNone);
       ("votes", VList []); ("attachments", VList [])])).
Proof. reflexivity. Qed.

(** *** The decision of a minutes item *)

(** X5. Under a falsy flag the decision of the minutes item is [None]
    and its vote list is empty, whatever votes the event item carries. *)
Theorem decision_none_without_flag (ignore : list string) (item flag mi : value) :
  subscript item "EventItemPassedFlagName" = Ok flag -> truthy flag = false ->
  parse_event_item ignore item = Ok (Some mi) ->
  subscript mi "decision" = Ok VNone /\ subscript mi "votes" = Ok (VList []).
Proof.
  intros Hflag Hfalsy H.
  destruct (parse_event_item_Some _ _ _ H)
    as (name & matter & index & id & atts & flag' & infos & votes
        & _ & _ & _ & _ & _ & _ & Hflag' & Hinfos & Hvotes & ->).
  rewrite Hflag in Hflag'. injection Hflag' as <-.
  unfold item_vote_infos, decision_entry in *. rewrite Hfalsy in *.
  injection Hinfos as <-. injection Hvotes as <-. split; reflexivity.
Qed.

Lemma decision_none_without_flag_witness :
  exists mi,
    parse_event_item [] item_unflagged = Ok (Some mi) /\
    subscript mi "decision" = Ok VNone /\ subscript mi "votes" = Ok (VList []).
Proof.
  eexists. split; [reflexivity |].
  apply (decision_none_without_flag [] item_unflagged VNone); reflexivity.
Defined.

(** X6. Under a truthy flag with at least one vote on record the
    decision of the minutes item is the flag. *)
Theorem decision_is_flag_with_votes (ignore : list string)
    (item flag vote_info mi : value) (vote_infos : list value) :
  subscript item "EventItemPassedFlagName" = Ok flag -> truthy flag = true ->
  subscript item "EventItemVoteInfo" = Ok (VList (vote_info :: vote_infos)) ->
  parse_event_item ignore item = Ok (Some mi) ->
  subscript mi "decision" = Ok flag.
Proof.
  intros Hflag Htruthy Hvi H.
  destruct (parse_event_item_Some _ _ _ H)
    as (name & matter & index & id & atts & flag' & infos & votes
        & _ & _ & _ & _ & _ & _ & Hflag' & Hinfos & Hvotes & ->).
  rewrite Hflag in Hflag'. injection Hflag' as <-.
  unfold item_vote_infos, decision_entry in *. rewrite Htruthy in *.
  rewrite Hvi in Hinfos. injection Hinfos as <-. reflexivity.
Qed.

Lemma decision_is_flag_with_votes_witness :
  exists mi,
    parse_event_item [] item_voted = Ok (Some mi) /\
    subscript mi "decision" = Ok (VStr "Pass").
Proof.
  eexists. split; [reflexivity |].
  apply (decision_is_flag_with_votes [] item_voted (VStr "Pass")
           (sample_vote (VFloat (71 # 1)) (VStr "42")) _ []); reflexivity.
Defined.

(** C1, on the code. The claim wants ["decision"] present and equal to
    the flag whenever the flag is truthy, also without votes. The code
    assigns it inside the loop over the votes: for an item with a truthy
    flag and an empty vote list the minutes item has no ["decision"]
    entry at all (and an empty vote list). *)
Theorem decision_absent_without_votes (ignore : list string) (item flag mi : value) :
  subscript item "EventItemPassedFlagName" = Ok flag -> truthy flag = true ->
  subscript item "EventItemVoteInfo" = Ok (VList []) ->
  parse_event_item ignore item = Ok (Some mi) ->
  subscript mi "decision" = Err (KeyError "decision") /\
  subscript mi "votes" = Ok (VList []).
Proof.
  intros Hflag Htruthy Hvi H.
  destruct (parse_event_item_Some _ _ _ H)
    as (name & matter & index & id & atts & flag' & infos & votes
        & _ & _ & _ & _ & _ & _ & Hflag' & Hinfos & Hvotes & ->).
  rewrite Hflag in Hflag'. injection Hflag' as <-.
  unfold item_vote_infos, decision_entry in *. rewrite Htruthy in *.
  rewrite Hvi in Hinfos. injection Hinfos as <-. injection Hvotes as <-.
  split; reflexivity.
Qed.

Lemma decision_absent_without_votes_witness :
  parse_event_item [] item_passed_unrecorded
  = Ok (Some (VDict
      [("name", VStr "Roads"); ("matter", VStr "CB 1"); ("index", VInt 1);
       ("legistar_event_item_id", VInt 12);
       ("votes", VList []); ("attachments", VList [])])) /\
  subscript (VDict
      [("name", VStr "Roads"); ("matter", VStr "CB 1"); ("index", VInt 1);
       ("legistar_event_item_id", VInt 12);
       ("votes", VList []); ("attachments", VList [])]) "decision"
  = Err (KeyError "decision") /\
  subscript (VDict
      [("name", VStr "Roads"); ("matter", VStr "CB 1"); ("index", VInt 1);
       ("legistar_event_item_id", VInt 12);
       ("votes", VList []); ("attachments", VList [])]) "votes"
  = Ok (VList []).
Proof.
  split; [reflexivity |].
  apply (decision_absent_without_votes [] item_passed_unrecorded (VStr "Pass")); reflexivity.
Defined.

(** *** Identifiers *)

Lemma parse_attachment_Ok (a out : value) :
  parse_attachment a = Ok out ->
  exists name uri id,
    out = VDict [("name", name); ("uri", uri);
                 ("legistar_matter_attachment_id", VInt id)].
Proof.
  unfold parse_attachment. intros H.
  apply bind_Ok in H. destruct H as (name & _ & H).
  apply bind_Ok in H. destruct H as (uri & _ & H).
  apply bind_Ok in H. destruct H as (id0 & _ & H).
  apply bind_Ok in H. destruct H as (id & _ & H).
  injection H as <-. now exists name, uri, id.
Qed.

Lemma parse_vote_Ok (vote_info vote : value) :
  parse_vote vote_info = Ok vote ->
  exists decision vote_id full_name email phone website person_id,
    subscript2 vote_info "PersonInfo" "PersonId" = Ok person_id /\
    vote = VDict [("decision", decision);
                  ("legistar_event_item_vote_id", VInt vote_id);
                  ("person", VDict [("full_name", full_name); ("email", email);
                                    ("phone", phone); ("website", website);
                                    ("legistar_person_id", person_id)])].
Proof.
  unfold parse_vote. intros H.
  apply bind_Ok in H. destruct H as (decision & _ & H).
  apply bind_Ok in H. destruct H as (id0 & _ & H).
  apply bind_Ok in H. destruct H as (vote_id & _ & H).
  apply bind_Ok in H. destruct H as (full_name & _ & H).
  apply bind_Ok in H. destruct H as (email & _ & H).
  apply bind_Ok in H. destruct H as (phone & _ & H).
  apply bind_Ok in H. destruct H as (website & _ & H).
  apply bind_Ok in H. destruct H as (person_id & Hp & H).
  injection H as <-.
  exists decision, vote_id, full_name, email, phone, website, person_id.
  split; [assumption | reflexivity].
Qed.

(** C2, on the code. The claim wants every identifier of the output an
    integer. The identifiers of the event, the items, the attachments
    and the votes go through [int]; the person's identifier does not:
    a vote carries it exactly as the upstream record has it, so a text
    identifier stays text. *)
Theorem person_id_not_coerced (vote_info person_id vote : value) :
  subscript2 vote_info "PersonInfo" "PersonId" = Ok person_id ->
  parse_vote vote_info = Ok vote ->
  subscript2 vote "person" "legistar_person_id" = Ok person_id /\
  exists z, subscript vote "legistar_event_item_vote_id" = Ok (VInt z).
Proof.
  intros Hp H.
  destruct (parse_vote_Ok _ _ H)
    as (decision & vote_id & full_name & email & phone & website & person_id' & Hp' & ->).
  rewrite Hp in Hp'. injection Hp' as <-.
  split; [reflexivity | now exists vote_id].
Qed.

Lemma person_id_not_coerced_witness :
  subscript2
    (VDict [("decision", VStr "In Favor"); ("legistar_event_item_vote_id", VInt 71);
            ("person", VDict
               [("full_name", VStr "Ada Park"); ("email", VStr "ada@example.org");
                ("phone", VNone); ("website", VNone);
                ("legistar_person_id", VStr "42")])])
    "person" "legistar_person_id" = Ok (VStr "42") /\
  exists z,
    subscript
      (VDict [("decision", VStr "In Favor"); ("legistar_event_item_vote_id", VInt 71);
              ("person", VDict
                 [("full_name", VStr "Ada Park"); ("email", VStr "ada@example.org");
                  ("phone", VNone); ("website", VNone);
                  ("legistar_person_id", VStr "42")])])
      "legistar_event_item_vote_id" = Ok (VInt z).
Proof.
  apply (person_id_not_coerced (sample_vote (VFloat (71 # 1)) (VStr "42")) (VStr "42"));
    reflexivity.
Defined.

(** *** The index of a minutes item *)

(** A truthy sequence value is coerced by [int]. *)
Lemma item_index_truthy (item sequence : value) :
  subscript item "EventItemMinutesSequence" = Ok sequence -> truthy sequence = true ->
  item_index item = py_int sequence.
Proof. unfold item_index. intros -> Ht. simpl. now rewrite Ht. Qed.

(** A sequence value that is there and falsy gives -1. *)
Lemma item_index_falsy (item sequence : value) :
  subscript item "EventItemMinutesSequence" = Ok sequence -> truthy sequence = false ->
  item_index item = Ok (-1).
Proof. unfold item_index. intros -> Ht. simpl. now rewrite Ht. Qed.

(** An item without the key has no index: the lookup raises. *)
Lemma item_index_absent (d : dict) :
  dict_get "EventItemMinutesSequence" d = None ->
  item_index (VDict d) = Err (KeyError "EventItemMinutesSequence").
Proof. unfold item_index, subscript. now intros ->. Qed.

(** An item that raises ends the loop over the items. *)
Lemma minutes_items_loop_Err (ignore : list string) (items acc : list value)
    (item : value) (e : exn) :
  In item items -> parse_event_item ignore item = Err e ->
  exists e', minutes_items_loop ignore acc items = Err e'.
Proof.
  revert acc. induction items as [| i items IH]; intros acc Hin He; [destruct Hin |].
  simpl. destruct Hin as [-> | Hin].
  - rewrite He. now exists e.
  - destruct (parse_event_item ignore i) as [e0 | r]; simpl; [now exists e0 |].
    now apply IH.
Qed.

(** *** The stable sort *)

Lemma insert_by_key_perm (x : Z * value) (l : list (Z * value)) :
  Permutation (x :: l) (insert_by_key x l).
Proof.
  induction l as [| y l IH]; simpl.
  - apply Permutation_refl.
  - destruct (fst x <=? fst y).
    + apply Permutation_refl.
    + transitivity (y :: x :: l); [apply perm_swap | now apply perm_skip].
Qed.

Lemma sort_by_key_perm (l : list (Z * value)) : Permutation l (sort_by_key l).
Proof.
  induction l as [| x l IH]; simpl.
  - apply perm_nil.
  - transitivity (x :: sort_by_key l); [now apply perm_skip | apply insert_by_key_perm].
Qed.

Lemma insert_by_key_sorted (x : Z * value) (l : list (Z * value)) :
  StronglySorted key_le l -> StronglySorted key_le (insert_by_key x l).
Proof.
  induction 1 as [| y l Hl IH Hy]; simpl.
  - repeat constructor.
  - destruct (Z.leb_spec (fst x) (fst y)) as [Hle | Hgt].
    + constructor; [now constructor |].
      constructor; [exact Hle |].
      eapply Forall_impl; [| exact Hy]. unfold key_le. intros q Hq. lia.
    + constructor; [exact IH |].
      eapply Permutation_Forall; [apply insert_by_key_perm |].
      constructor; [unfold key_le; lia | exact Hy].
Qed.

Lemma sort_by_key_sorted (l : list (Z * value)) : StronglySorted key_le (sort_by_key l).
Proof.
  induction l as [| x l IH]; simpl; [constructor | now apply insert_by_key_sorted].
Qed.

(** Stability: an element goes in front of the elements of its own key
    that are already there, so the elements of one key keep their order. *)
Lemma insert_by_key_filter (k : Z) (x : Z * value) (l : list (Z * value)) :
  filter (fun p => fst p =? k) (insert_by_key x l)
  = filter (fun p => fst p =? k) (x :: l).
Proof.
  induction l as [| y l IH]; simpl; [reflexivity |].
  destruct (Z.leb_spec (fst x) (fst y)) as [Hle | Hgt]; [reflexivity |].
  simpl in *. rewrite IH.
  destruct (Z.eqb_spec (fst x) k) as [Hx | Hx]; [| reflexivity].
  destruct (Z.eqb_spec (fst y) k) as [Hy | Hy]; [lia | reflexivity].
Qed.

Lemma sort_by_key_stable (k : Z) (l : list (Z * value)) :
  filter (fun p => fst p =? k) (sort_by_key l) = filter (fun p => fst p =? k) l.
Proof.
  induction l as [| x l IH]; simpl; [reflexivity |].
  rewrite insert_by_key_filter. simpl. now rewrite IH.
Qed.

Lemma mapM_decorate (l : list value) (keyed : list (Z * value)) :
  mapM decorate l = Ok keyed -> map snd keyed = l /\ keyed_by_index keyed.
Proof.
  revert keyed. induction l as [| mi l IH]; intros keyed H; simpl in H.
  - injection H as <-. split; [reflexivity | constructor].
  - apply bind_Ok in H. destruct H as ([k mi'] & Hd & H).
    apply bind_Ok in H. destruct H as (rest & Hrest & H). injection H as <-.
    unfold decorate in Hd. apply bind_Ok in Hd. destruct Hd as (k' & Hk & Hd).
    injection Hd as -> ->. destruct (IH _ Hrest) as [<- Hkeyed].
    split; [reflexivity | now constructor].
Qed.

Lemma keyed_index_keys (l : list (Z * value)) :
  keyed_by_index l -> mapM index_key (map snd l) = Ok (map fst l).
Proof.
  induction 1 as [| p l Hp _ IH]; simpl; [reflexivity |].
  rewrite Hp. simpl. rewrite IH. reflexivity.
Qed.

Lemma keyed_filter (k : Z) (l : list (Z * value)) :
  keyed_by_index l ->
  filter (has_index k) (map snd l) = map snd (filter (fun p => fst p =? k) l).
Proof.
  induction 1 as [| p l Hp _ IH]; simpl; [reflexivity |].
  unfold has_index at 1. rewrite Hp. simpl.
  destruct (fst p =? k); simpl; now rewrite IH.
Qed.

Lemma sorted_keys (l : list (Z * value)) :
  StronglySorted key_le l -> Sorted Z.le (map fst l).
Proof.
  intros H. apply StronglySorted_Sorted.
  induction H as [| p l Hl IH Hp]; simpl; constructor; [exact IH |].
  apply Forall_map. exact Hp.
Qed.

(** What [sorted] returns: the same items, in non-decreasing order of
    their index, the items of one index in the order they had. *)
Lemma sorted_by_index_Ok (l items : list value) :
  sorted_by_index l = Ok items ->
  Permutation l items /\
  (exists keys, mapM index_key items = Ok keys /\ Sorted Z.le keys) /\
  (forall k, filter (has_index k) items = filter (has_index k) l).
Proof.
  unfold sorted_by_index. intros H.
  apply bind_Ok in H. destruct H as (keyed & Hkeyed & H). injection H as <-.
  destruct (mapM_decorate _ _ Hkeyed) as [<- Hk].
  assert (Hk' : keyed_by_index (sort_by_key keyed)).
  { eapply Permutation_Forall; [apply sort_by_key_perm | exact Hk]. }
  repeat split.
  - apply Permutation_map, sort_by_key_perm.
  - exists (map fst (sort_by_key keyed)). split.
    + now apply keyed_index_keys.
    + apply sorted_keys, sort_by_key_sorted.
  - intros k. rewrite !keyed_filter by assumption. now rewrite sort_by_key_stable.
Qed.

(** The sort is defined on every list of minutes items with an integer
    index. *)
Lemma sorted_by_index_total (l : list value) :
  (forall mi, In mi l -> exists z, index_key mi = Ok z) ->
  exists items, sorted_by_index l = Ok items.
Proof.
  intros H. unfold sorted_by_index.
  destruct (mapM_total decorate l) as (keyed & Hkeyed).
  - intros mi Hin. destruct (H mi Hin) as (z & Hz).
    exists (z, mi). unfold decorate. now rewrite Hz.
  - rewrite Hkeyed. simpl. eexists. reflexivity.
Qed.

(** Two lists sorted by key that agree on the sublist of every key are
    equal: on integer keys there is one stable sort, so [sort_by_key]
    returns what Python's [sorted] returns. *)
Lemma stable_sorted_unique (l1 l2 : list (Z * value)) :
  StronglySorted key_le l1 -> StronglySorted key_le l2 ->
  (forall k, filter (fun p => fst p =? k) l1 = filter (fun p => fst p =? k) l2) ->
  l1 = l2.
Proof.
  intros H1. revert l2. induction H1 as [| x l1 Hs1 IH Hx]; intros l2 H2 Hf.
  - destruct l2 as [| y l2]; [reflexivity |].
    specialize (Hf (fst y)). simpl in Hf. rewrite Z.eqb_refl in Hf. discriminate Hf.
  - destruct H2 as [| y l2 Hs2 Hy].
    + specialize (Hf (fst x)). simpl in Hf. rewrite Z.eqb_refl in Hf. discriminate Hf.
    + assert (Hxy : fst x = fst y).
      { apply Z.le_antisymm.
        - assert (Hin : In y (x :: l1)).
          { apply (proj1 (filter_In (fun p => fst p =? fst y) y (x :: l1))).
            rewrite Hf. simpl. rewrite Z.eqb_refl. now left. }
          destruct Hin as [-> | Hin]; [lia |].
          rewrite Forall_forall in Hx. exact (Hx y Hin).
        - assert (Hin : In x (y :: l2)).
          { apply (proj1 (filter_In (fun p => fst p =? fst x) x (y :: l2))).
            rewrite <- Hf. simpl. rewrite Z.eqb_refl. now left. }
          destruct Hin as [-> | Hin]; [lia |].
          rewrite Forall_forall in Hy. exact (Hy x Hin). }
      pose proof (Hf (fst x)) as Hhead. simpl in Hhead.
      rewrite <- Hxy, Z.eqb_refl in Hhead. injection Hhead as <- Htail.
      f_equal. apply IH; [exact Hs2 |].
      intros k. specialize (Hf k). simpl in Hf.
      destruct (fst x =? k); [now injection Hf | exact Hf].
Qed.

(** *** The loop over the event items *)

(** The loop runs the body on every item, in input order, and appends
    what the body emits. *)
Lemma minutes_items_loop_mapM (ignore : list string) (items acc : list value) :
  minutes_items_loop ignore acc items =
  (rs <- mapM (parse_event_item ignore) items ;; Ok (acc ++ emitted rs)%list).
Proof.
  revert acc. induction items as [| item items IH]; intros acc; simpl.
  - now rewrite app_nil_r.
  - destruct (parse_event_item ignore item) as [e | r]; simpl; [reflexivity |].
    rewrite IH. destruct (mapM (parse_event_item ignore) items) as [e | rs]; simpl;
      [reflexivity |].
    destruct r; simpl; [now rewrite <- app_assoc | reflexivity].
Qed.




Section NormalizerProperties.

Variable strptime : string -> option datetime.
Variable str_other : value -> string.

Local Abbreviation normalize := (parse_legistar_event_details strptime str_other).
Local Abbreviation timestamp := (parse_event_datetime strptime str_other).

(** A successful call, read back step by step. *)
Lemma parse_legistar_event_details_Ok (ev out : value) (ignore : list string) :
  normalize ev ignore = Ok out ->
  exists dt raw0 raw unsorted items agenda body id link minutes_file,
    timestamp ev = Ok dt /\
    subscript ev "EventItems" = Ok raw0 /\ iterate raw0 = Ok raw /\
    minutes_items_loop ignore [] raw = Ok unsorted /\
    sorted_by_index unsorted = Ok items /\
    out = VDict [("agenda_file_uri", agenda); ("body", body);
                 ("event_datetime", VDatetime dt); ("minutes_items", VList items);
                 ("legistar_event_id", VInt id); ("legistar_event_link", link);
                 ("minutes_file_uri", minutes_file)].
Proof.
  unfold parse_legistar_event_details. intros H.
  apply bind_Ok in H. destruct H as (dt & Hdt & H).
  apply bind_Ok in H. destruct H as (raw0 & Hraw0 & H).
  apply bind_Ok in H. destruct H as (raw & Hraw & H).
  apply bind_Ok in H. destruct H as (unsorted & Hloop & H).
  apply bind_Ok in H. destruct H as (items & Hsort & H).
  apply bind_Ok in H. destruct H as (agenda & _ & H).
  apply bind_Ok in H. destruct H as (body & _ & H).
  apply bind_Ok in H. destruct H as (id0 & _ & H).
  apply bind_Ok in H. destruct H as (id & _ & H).
  apply bind_Ok in H. destruct H as (link & _ & H).
  apply bind_Ok in H. destruct H as (mf & _ & H).
  injection H as <-.
  exists dt, raw0, raw, unsorted, items, agenda, body, id, link, mf.
  repeat split; assumption.
Qed.


(** An error of the timestamp step, or of the loop over the items, is
    the error of the call. *)
Lemma timestamp_Err (ev : value) (ignore : list string) (e : exn) :
  timestamp ev = Err e -> normalize ev ignore = Err e.
Proof. intros H. unfold parse_legistar_event_details. now rewrite H. Qed.

Lemma item_Err (ev item : value) (items : list value) (ignore : list string) (e : exn) :
  subscript ev "EventItems" = Ok (VList items) -> In item items ->
  parse_event_item ignore item = Err e ->
  exists e', normalize ev ignore = Err e'.
Proof.
  intros Hitems Hin He. unfold parse_legistar_event_details.
  destruct (timestamp ev) as [e0 | dt]; simpl; [now exists e0 |].
  rewrite Hitems. simpl.
  destruct (minutes_items_loop_Err ignore items [] item e Hin He) as (e' & ->).
  now exists e'.
Qed.

End NormalizerProperties.

(** *** An item without its sequence value *)

(** C3, on the code. The claim wants the index -1, and no failure, also
    for an item that lacks the sequence value altogether. The code reads
    the value with a plain lookup (under the comment that it is
    sometimes missing): an item without the key, unless it is ignored,
    makes the whole call fail. *)
Theorem index_absent_is_fatal
    (strptime : string -> option datetime) (str_other : value -> string)
    (ev : value) (items : list value) (d : dict) (ignore : list string) :
  subscript ev "EventItems" = Ok (VList items) ->
  In (VDict d) items ->
  dict_get "EventItemMinutesSequence" d = None ->
  (forall name, item_display_name (VDict d) = Ok name -> py_in name ignore = false) ->
  exists e, parse_legistar_event_details strptime str_other ev ignore = Err e.
Proof.
  intros Hitems Hin Habsent Hname.
  assert (He : exists e, parse_event_item ignore (VDict d) = Err e).
  { unfold parse_event_item.
    destruct (item_display_name (VDict d)) as [e | name]; simpl; [now exists e |].
    destruct (item_matter (VDict d)) as [e | matter]; simpl; [now exists e |].
    rewrite (Hname name eq_refl), (item_index_absent d Habsent). simpl.
    now eexists. }
  destruct He as (e & He).
  exact (item_Err strptime str_other ev (VDict d) items ignore e Hitems Hin He).
Qed.

Lemma index_absent_is_fatal_witness :
  parse_legistar_event_details strptime_event_format str_unmodelled
    (sample_meeting [item_voted; item_without_sequence]) []
  = Err (KeyError "EventItemMinutesSequence") /\
  exists e,
    parse_legistar_event_details strptime_event_format str_unmodelled
      (sample_meeting [item_voted; item_without_sequence]) [] = Err e.
Proof.
  split; [reflexivity |].
  apply (index_absent_is_fatal strptime_event_format str_unmodelled
           (sample_meeting [item_voted; item_without_sequence])
           [item_voted; item_without_sequence]
           [("EventItemId", VInt 14); ("EventItemMatterName", VNone);
            ("EventItemTitle", VStr "Resolution 1"); ("EventItemMatterFile", VNone);
            ("EventItemPassedFlagName", VNone);
            ("EventItemMatterAttachments", VList []);
            ("EventItemVoteInfo", VList [])] []).
  - reflexivity.
  - right. left. reflexivity.
  - reflexivity.
  - intros name _. now destruct name.
Defined.

(** *** The order of the minutes items *)

(** The sort key of a minutes item is the integer it holds under
    ["index"]. *)
Lemma index_key_Ok (mi : value) (z : Z) :
  index_key mi = Ok z <-> subscript mi "index" = Ok (VInt z).
Proof.
  unfold index_key. split.
  - intros H. apply bind_Ok in H. destruct H as (k & Hk & H).
    destruct k; try discriminate H. now injection H as <-.
  - intros H. now rewrite H.
Qed.

Lemma has_index_field (k : Z) (mi : value) :
  has_index k mi = index_field_is k mi.
Proof.
  unfold has_index, index_field_is, index_key.
  destruct (subscript mi "index") as [e | v]; simpl; [reflexivity |].
  now destruct v.
Qed.

Lemma filter_has_index (k : Z) (l : list value) :
  filter (has_index k) l = filter (index_field_is k) l.
Proof. apply filter_ext. intros mi. apply has_index_field. Qed.

(** C6. The minutes items of the output are the items the loop emitted
    (for the event items in input order), sorted by index: every item
    of the output holds an integer under ["index"], these integers are
    non-decreasing along the output, and the items that hold any one
    integer there stand in the order in which they were emitted. *)
Theorem minutes_items_sorted_stable
    (strptime : string -> option datetime) (str_other : value -> string)
    (ev out : value) (ignore : list string) :
  parse_legistar_event_details strptime str_other ev ignore = Ok out ->
  exists raw0 raw rs items indices,
    subscript ev "EventItems" = Ok raw0 /\ iterate raw0 = Ok raw /\
    mapM (parse_event_item ignore) raw = Ok rs /\
    subscript out "minutes_items" = Ok (VList items) /\
    Forall2 (fun mi z => subscript mi "index" = Ok (VInt z)) items indices /\
    Sorted Z.le indices /\
    Permutation (emitted rs) items /\
    (forall k, filter (index_field_is k) items
               = filter (index_field_is k) (emitted rs)).
Proof.
  intros H.
  destruct (parse_legistar_event_details_Ok _ _ _ _ _ H)
    as (dt & raw0 & raw & unsorted & items & agenda & body & id & link & mf
        & _ & Hraw0 & Hraw & Hloop & Hsort & ->).
  rewrite minutes_items_loop_mapM in Hloop.
  apply bind_Ok in Hloop. destruct Hloop as (rs & Hrs & Hloop).
  injection Hloop as <-. simpl in Hsort.
  destruct (sorted_by_index_Ok _ _ Hsort) as (Hperm & (keys & Hkeys & Hsorted) & Hstable).
  exists raw0, raw, rs, items, keys. repeat split; try assumption.
  - apply mapM_Forall2 in Hkeys.
    eapply Forall2_impl; [| exact Hkeys]. intros mi z. apply index_key_Ok.
  - intros k. rewrite <- !filter_has_index. apply Hstable.
Qed.

Lemma minutes_items_sorted_stable_witness :
  (out <- parse_legistar_event_details strptime_event_format str_unmodelled
            (sample_meeting [item_voted; item_passed_unrecorded; item_unflagged]) [] ;;
   names <- output_field "name" out ;;
   indices <- output_field "index" out ;;
   Ok (names, indices))
  = Ok ([VStr "Call to order"; VStr "Roads"; VStr "Budget"],
        [VInt (-1); VInt 1; VInt 2]) /\
  exists out,
    parse_legistar_event_details strptime_event_format str_unmodelled
      (sample_meeting [item_voted; item_passed_unrecorded; item_unflagged]) []
    = Ok out /\
    exists raw0 raw rs items indices,
      subscript (sample_meeting [item_voted; item_passed_unrecorded; item_unflagged])
        "EventItems" = Ok raw0 /\
      iterate raw0 = Ok raw /\
      mapM (parse_event_item []) raw = Ok rs /\
      subscript out "minutes_items" = Ok (VList items) /\
      Forall2 (fun mi z => subscript mi "index" = Ok (VInt z)) items indices /\
      Sorted Z.le indices /\
      Permutation (emitted rs) items /\
      (forall k, filter (index_field_is k) items
                 = filter (index_field_is k) (emitted rs)).
Proof.
  split; [reflexivity |].
  eexists. split; [reflexivity |].
  apply (minutes_items_sorted_stable strptime_event_format str_unmodelled
           (sample_meeting [item_voted; item_passed_unrecorded; item_unflagged]) _ []).
  reflexivity.
Defined.

(** Items with the indices 2 and 1, in that order, come out as index 1,
    then index 2. *)
Example minutes_items_two_then_one :
  (out <- parse_legistar_event_details strptime_event_format str_unmodelled
            (sample_meeting [item_voted; item_passed_unrecorded]) [] ;;
   names <- output_field "name" out ;;
   indices <- output_field "index" out ;;
   Ok (names, indices))
  = Ok ([VStr "Roads"; VStr "Budget"], [VInt 1; VInt 2]).
Proof. reflexivity. Qed.

(** Items of one index keep their input order. *)
Example minutes_items_equal_index :
  (out <- parse_legistar_event_details strptime_event_format str_unmodelled
            (sample_meeting
               [sample_item (VInt 21) VNone (VStr "b") (VInt 3) VNone [] [];
                sample_item (VInt 22) VNone (VStr "c") (VInt 1) VNone [] [];
                sample_item (VInt 23) VNone (VStr "a") (VInt 3) VNone [] [];
                sample_item (VInt 24) VNone (VStr "d") (VInt 1) VNone [] []]) [] ;;
   output_field "name" out)
  = Ok [VStr "c"; VStr "d"; VStr "b"; VStr "a"].
Proof. reflexivity. Qed.

(** *** The timestamp *)

(** C8. An event whose date field or time field is missing, or whose
    date and time do not make a text that [strptime] reads in the
    expected format, makes the call fail: it returns an exception (a
    [KeyError] for a missing field, an [AttributeError] for a date that
    is no text, a [ValueError] for a text out of the format) and never a
    record, whatever the rest of the event holds. The code has no
    exception of its own for this; these are what the specification
    calls a ParseError. *)
Theorem bad_timestamp_is_fatal
    (strptime : string -> option datetime) (str_other : value -> string)
    (ev : value) (ignore : list string) :
  subscript ev "EventDate" = Err (KeyError "EventDate") \/
  subscript ev "EventTime" = Err (KeyError "EventTime") \/
  (exists date time,
     subscript ev "EventDate" = Ok date /\ subscript ev "EventTime" = Ok time /\
     forall event_date, split_T_head date = Ok event_date ->
       strptime (event_date ++ "T" ++ py_str str_other time) = None) ->
  exists e,
    parse_legistar_event_details strptime str_other ev ignore = Err e /\
    (e = KeyError "EventDate" \/ e = KeyError "EventTime" \/
     e = AttributeError \/ e = ValueError).
Proof.
  intros H.
  assert (Hts : exists e,
             parse_event_datetime strptime str_other ev = Err e /\
             (e = KeyError "EventDate" \/ e = KeyError "EventTime" \/
              e = AttributeError \/ e = ValueError)).
  { unfold parse_event_datetime.
    destruct H as [Hd | [Ht | (date & time & Hd & Ht & Hbad)]].
    - rewrite Hd. eexists. split; [reflexivity | now left].
    - destruct (subscript ev "EventDate") as [e | date] eqn:Hd; simpl.
      + destruct ev; try discriminate Ht. simpl in Hd.
        destruct (dict_get "EventDate" d); [discriminate Hd |].
        injection Hd as <-. eexists. split; [reflexivity | now left].
      + destruct date; simpl; try (eexists; split; [reflexivity | tauto]).
        rewrite Ht. eexists. split; [reflexivity | tauto].
    - rewrite (bind_of_Ok _ _ _ Hd).
      assert (Hstr : forall s, date = VStr s ->
                strptime (before_T s ++ "T" ++ py_str str_other time) = None).
      { intros s ->. now apply Hbad. }
      destruct date; try (eexists; split; [reflexivity | tauto]).
      rewrite (bind_of_Ok _ _ (before_T s) eq_refl), (bind_of_Ok _ _ _ Ht).
      rewrite (Hstr s eq_refl).
      eexists. split; [reflexivity | tauto]. }
  destruct Hts as (e & He & Hkind).
  exists e. split; [now apply timestamp_Err | exact Hkind].
Qed.

Lemma bad_timestamp_is_fatal_witness :
  parse_legistar_event_details strptime_event_format str_unmodelled
    (with_event_items
       (sample_event_fields (VStr "2019-03-04T00:00:00") (VStr "15:00")) [])
    [] = Err ValueError /\
  exists e,
    parse_legistar_event_details strptime_event_format str_unmodelled
      (with_event_items
         (sample_event_fields (VStr "2019-03-04T00:00:00") (VStr "15:00")) [])
      [] = Err e /\
    (e = KeyError "EventDate" \/ e = KeyError "EventTime" \/
     e = AttributeError \/ e = ValueError).
Proof.
  split; [reflexivity |].
  apply (bad_timestamp_is_fatal strptime_event_format str_unmodelled
           (with_event_items
              (sample_event_fields (VStr "2019-03-04T00:00:00") (VStr "15:00")) [])
           []).
  right. right. exists (VStr "2019-03-04T00:00:00"), (VStr "15:00").
  split; [reflexivity | split; [reflexivity |]].
  intros event_date Hd. injection Hd as <-. reflexivity.
Defined.

(** A missing time field, and a date that is [None]. *)
Example timestamp_time_missing :
  parse_legistar_event_details strptime_event_format str_unmodelled
    (VDict [("EventId", VInt 1); ("EventDate", VStr "2019-03-04T00:00:00");
            ("EventItems", VList [])]) []
  = Err (KeyError "EventTime").
Proof. reflexivity. Qed.

Example timestamp_date_none :
  parse_legistar_event_details strptime_event_format str_unmodelled
    (with_event_items (sample_event_fields VNone (VStr "3:00 PM")) []) []
  = Err AttributeError.
Proof. reflexivity. Qed.

(** *** What the minutes items hold *)

Lemma mapM_In {A B : Type} (f : A -> result B) (l : list A) (bs : list B) (b : B) :
  mapM f l = Ok bs -> In b bs -> exists a, In a l /\ f a = Ok b.
Proof.
  intros H Hin. apply mapM_Forall2 in H.
  induction H as [| a b' l bs Hab _ IH]; [destruct Hin |].
  destruct Hin as [-> | Hin].
  - exists a. split; [now left | assumption].
  - destruct (IH Hin) as (a' & Ha' & Hfa'). exists a'. split; [now right | assumption].
Qed.

Lemma emitted_In (rs : list (option value)) (mi : value) :
  In mi (emitted rs) <-> In (Some mi) rs.
Proof.
  unfold emitted. rewrite in_flat_map. split.
  - intros ([mi' |] & Hin & Hmi); [| destruct Hmi].
    destruct Hmi as [-> | []]. exact Hin.
  - intros Hin. exists (Some mi). split; [exact Hin | now left].
Qed.

(** The fields of a minutes item, whatever its decision entry. *)
Lemma minutes_item_dict_fields (name matter flag : value) (index id : Z)
    (vote_infos votes attachments : list value) :
  let mi := minutes_item_dict name matter index id
              (decision_entry flag vote_infos) votes attachments in
  subscript mi "name" = Ok name /\ subscript mi "matter" = Ok matter /\
  subscript mi "index" = Ok (VInt index) /\
  subscript mi "legistar_event_item_id" = Ok (VInt id) /\
  subscript mi "votes" = Ok (VList votes) /\
  subscript mi "attachments" = Ok (VList attachments).
Proof.
  unfold decision_entry.
  destruct (truthy flag); [destruct vote_infos |]; repeat split; reflexivity.
Qed.

(** Every minutes item of an output was emitted by the loop body for one
    of the event items. *)
Lemma output_item_origin
    (strptime : string -> option datetime) (str_other : value -> string)
    (ev out : value) (ignore : list string) :
  parse_legistar_event_details strptime str_other ev ignore = Ok out ->
  exists items,
    subscript out "minutes_items" = Ok (VList items) /\
    (exists id, subscript out "legistar_event_id" = Ok (VInt id)) /\
    forall mi, In mi items ->
      exists raw0 raw item,
        subscript ev "EventItems" = Ok raw0 /\ iterate raw0 = Ok raw /\
        In item raw /\ parse_event_item ignore item = Ok (Some mi).
Proof.
  intros H.
  destruct (parse_legistar_event_details_Ok _ _ _ _ _ H)
    as (dt & raw0 & raw & unsorted & items & agenda & body & id & link & mf
        & _ & Hraw0 & Hraw & Hloop & Hsort & ->).
  exists items. split; [reflexivity |]. split; [now exists id |].
  intros mi Hin.
  rewrite minutes_items_loop_mapM in Hloop.
  apply bind_Ok in Hloop. destruct Hloop as (rs & Hrs & Hloop).
  injection Hloop as <-. simpl in Hsort.
  destruct (sorted_by_index_Ok _ _ Hsort) as (Hperm & _ & _).
  apply (Permutation_in _ (Permutation_sym Hperm)) in Hin.
  apply emitted_In in Hin.
  destruct (mapM_In _ _ _ _ Hrs Hin) as (item & Hitem & Hbody).
  now exists raw0, raw, item.
Qed.

(** *** The ignore list *)




(** With the item on the ignore list the call returns the two other
    minutes items, as it does without the item. *)
Example ignored_item_dropped :
  (out <- parse_legistar_event_details strptime_event_format str_unmodelled
            (sample_meeting [item_voted; item_unflagged; item_passed_unrecorded])
            ["Call to order"] ;;
   output_field "name" out)
  = Ok [VStr "Roads"; VStr "Budget"].
Proof. reflexivity. Qed.

(** *** Further properties of the two functions *)

(** X1. The identifiers that go through [int] are integers in every
    output: the event's, and for every minutes item its own, those of
    its attachments and those of its votes. (The person's identifier is
    the one left out, see C2.) *)
Theorem coerced_identifiers_are_integers
    (strptime : string -> option datetime) (str_other : value -> string)
    (ev out : value) (ignore : list string) :
  parse_legistar_event_details strptime str_other ev ignore = Ok out ->
  (exists id, subscript out "legistar_event_id" = Ok (VInt id)) /\
  exists items,
    subscript out "minutes_items" = Ok (VList items) /\
    forall mi, In mi items ->
      (exists id, subscript mi "legistar_event_item_id" = Ok (VInt id)) /\
      (exists attachments,
         subscript mi "attachments" = Ok (VList attachments) /\
         forall a, In a attachments ->
           exists id, subscript a "legistar_matter_attachment_id" = Ok (VInt id)) /\
      (exists votes,
         subscript mi "votes" = Ok (VList votes) /\
         forall v, In v votes ->
           exists id, subscript v "legistar_event_item_vote_id" = Ok (VInt id)).
Proof.
  intros H.
  destruct (output_item_origin _ _ _ _ _ H) as (items & Hitems & Hid & Horigin).
  split; [exact Hid |]. exists items. split; [exact Hitems |].
  intros mi Hin.
  destruct (Horigin mi Hin) as (raw0 & raw & item & _ & _ & _ & Hbody).
  destruct (parse_event_item_Some _ _ _ Hbody)
    as (name & matter & index & id & atts & flag & infos & votes
        & _ & _ & _ & _ & _ & Hatts & _ & _ & Hvotes & ->).
  destruct (minutes_item_dict_fields name matter flag index id infos votes atts)
    as (_ & _ & _ & Hi & Hv & Ha).
  split; [now exists id |]. split.
  - exists atts. split; [exact Ha |]. intros a Hina.
    unfold item_attachments in Hatts.
    apply bind_Ok in Hatts. destruct Hatts as (a0 & _ & Hatts).
    apply bind_Ok in Hatts. destruct Hatts as (a1 & _ & Hatts).
    destruct (mapM_In _ _ _ _ Hatts Hina) as (raw_a & _ & Hpa).
    destruct (parse_attachment_Ok _ _ Hpa) as (n & u & i & ->). now exists i.
  - exists votes. split; [exact Hv |]. intros v Hinv.
    destruct (mapM_In _ _ _ _ Hvotes Hinv) as (raw_v & _ & Hpv).
    destruct (parse_vote_Ok _ _ Hpv) as (dc & i & fn & em & ph & ww & pid & _ & ->).
    now exists i.
Qed.

Lemma coerced_identifiers_are_integers_witness :
  exists out,
    parse_legistar_event_details strptime_event_format str_unmodelled
      (sample_meeting [item_voted; item_unflagged]) [] = Ok out /\
    (exists id, subscript out "legistar_event_id" = Ok (VInt id)) /\
    exists items,
      subscript out "minutes_items" = Ok (VList items) /\
      forall mi, In mi items ->
        (exists id, subscript mi "legistar_event_item_id" = Ok (VInt id)) /\
        (exists attachments,
           subscript mi "attachments" = Ok (VList attachments) /\
           forall a, In a attachments ->
             exists id, subscript a "legistar_matter_attachment_id" = Ok (VInt id)) /\
        (exists votes,
           subscript mi "votes" = Ok (VList votes) /\
           forall v, In v votes ->
             exists id, subscript v "legistar_event_item_vote_id" = Ok (VInt id)).
Proof.
  eexists. split; [reflexivity |].
  apply (coerced_identifiers_are_integers strptime_event_format str_unmodelled
           (sample_meeting [item_voted; item_unflagged]) _ []).
  reflexivity.
Defined.

(** Without candidates the Matcher returns the empty dictionary as
    [selected_event] and an empty score map, and computes no similarity. *)
Lemma matcher_no_candidate
    (token_set_ratio : list string -> list value -> Z) (str_lower : string -> string) (targets : list string) :
  get_matching_legistar_event_by_minutes_match token_set_ratio str_lower targets []
  = Ok (mkAgendaMatchResults (VDict []) [], []).
Proof. reflexivity. Qed.

(** The calls the loop makes: one per candidate, in input order, each on
    the targets and the names of that candidate. *)
Lemma match_loop_calls (token_set_ratio : list string -> list value -> Z)
    (targets : list string) (events : list value) (st st' : match_state) :
  match_loop token_set_ratio targets st events = Ok st' ->
  exists names,
    mapM event_minutes_items events = Ok names /\
    st_calls st' = (st_calls st ++ map (pair targets) names)%list.
Proof.
  revert st. induction events as [| e events IH]; intros st H; simpl in H.
  - injection H as <-. exists []. now rewrite app_nil_r.
  - apply bind_Ok in H. destruct H as (st1 & Hst1 & H).
    destruct (match_event_Ok _ _ _ _ _ Hst1) as (ns & k & Hns & _ & _ & _ & Hcalls & _).
    destruct (IH st1 H) as (names & Hnames & ->).
    exists (ns :: names). simpl. rewrite Hns, Hnames. simpl.
    rewrite Hcalls, <- app_assoc. split; reflexivity.
Qed.

(** X2. With two or more candidates the Matcher calls the similarity
    capability once per candidate, in input order, each time on the
    targets as [str.lower] gives them and on the names the items of
    that candidate show (the matter name when truthy, else the title),
    as they are. *)
Theorem matcher_one_call_per_candidate
    (token_set_ratio : list string -> list value -> Z) (str_lower : string -> string)
    (targets : list string) (events : list value)
    (r : AgendaMatchResults) (calls : list ratio_call) :
  (2 <= List.length events)%nat ->
  get_matching_legistar_event_by_minutes_match token_set_ratio str_lower targets events
  = Ok (r, calls) ->
  Forall2 (fun event call =>
             fst call = map str_lower targets /\ shows_names event (snd call))
    events calls /\
  List.length calls = List.length events.
Proof.
  intros Hlen H. rewrite matcher_many in H by exact Hlen.
  apply bind_Ok in H. destruct H as (st & Hst & H). injection H as _ <-.
  destruct (match_loop_calls _ _ _ _ _ Hst) as (names & Hnames & ->).
  simpl. split.
  - apply mapM_Forall2 in Hnames. clear Hlen Hst.
    induction Hnames as [| event ns events names Hns _ IH]; simpl; constructor.
    + split; [reflexivity | now apply event_minutes_items_shows].
    + exact IH.
  - rewrite length_map. now apply mapM_length in Hnames.
Qed.

Lemma matcher_one_call_per_candidate_witness :
  Forall2 (fun event call =>
             fst call = ["budget"; "roads"] /\ shows_names event (snd call))
    [candidate_title; candidate_both]
    [(["budget"; "roads"], [VStr "budget"]);
     (["budget"; "roads"], [VStr "budget"; VStr "roads"])] /\
  List.length [(["budget"; "roads"], [VStr "budget"]);
               (["budget"; "roads"], [VStr "budget"; VStr "roads"])]
  = List.length [candidate_title; candidate_both].
Proof.
  apply (matcher_one_call_per_candidate sample_ratio lower ["Budget"; "Roads"]
           [candidate_title; candidate_both]
           (mkAgendaMatchResults candidate_both [(VInt 2, 25); (VInt 4, 50)])).
  - simpl. lia.
  - reflexivity.
Defined.

(** X3. The name of a minutes item is the matter name of the event item
    when that is truthy and its title otherwise; the matter is the
    matter name when truthy and the matter file otherwise. *)
Theorem name_and_matter_fallback (ignore : list string) (item matter_name mi : value) :
  subscript item "EventItemMatterName" = Ok matter_name ->
  parse_event_item ignore item = Ok (Some mi) ->
  subscript mi "name"
  = (if truthy matter_name then Ok matter_name else subscript item "EventItemTitle") /\
  subscript mi "matter"
  = (if truthy matter_name then Ok matter_name
     else subscript item "EventItemMatterFile").
Proof.
  intros Hmn H.
  destruct (parse_event_item_Some _ _ _ H)
    as (name & matter & index & id & atts & flag & infos & votes
        & Hname & Hmatter & _ & _ & _ & _ & _ & _ & _ & ->).
  destruct (minutes_item_dict_fields name matter flag index id infos votes atts)
    as (Hn & Hm & _).
  rewrite Hn, Hm. unfold item_display_name, item_matter in *.
  rewrite Hmn in *. simpl in *.
  destruct (truthy matter_name); rewrite ?Hmn in *; split; congruence.
Qed.

Lemma name_and_matter_fallback_witness :
  exists mi,
    parse_event_item [] item_unflagged = Ok (Some mi) /\
    subscript mi "name" = Ok (VStr "Call to order") /\
    subscript mi "matter" = Ok (VStr "CB 1").
Proof.
  eexists. split; [reflexivity |].
  apply (name_and_matter_fallback [] item_unflagged VNone); reflexivity.
Defined.

(** X4. The index of a minutes item is [int] of the sequence value of
    the event item when that value is truthy, and -1 when it is there
    and falsy. *)
Theorem index_of_sequence (ignore : list string) (item sequence mi : value) :
  subscript item "EventItemMinutesSequence" = Ok sequence ->
  parse_event_item ignore item = Ok (Some mi) ->
  (truthy sequence = true ->
   exists z, py_int sequence = Ok z /\ subscript mi "index" = Ok (VInt z)) /\
  (truthy sequence = false -> subscript mi "index" = Ok (VInt (-1))).
Proof.
  intros Hseq H.
  destruct (parse_event_item_Some _ _ _ H)
    as (name & matter & index & id & atts & flag & infos & votes
        & _ & _ & _ & Hindex & _ & _ & _ & _ & _ & ->).
  destruct (minutes_item_dict_fields name matter flag index id infos votes atts)
    as (_ & _ & Hi & _).
  rewrite Hi. split; intros Ht.
  - rewrite (item_index_truthy _ _ Hseq Ht) in Hindex. now exists index.
  - rewrite (item_index_falsy _ _ Hseq Ht) in Hindex. now injection Hindex as <-.
Qed.

Lemma index_of_sequence_witness :
  exists mi,
    parse_event_item [] item_passed_unrecorded = Ok (Some mi) /\
    (truthy (VStr "1") = true ->
     exists z, py_int (VStr "1") = Ok z /\ subscript mi "index" = Ok (VInt z)) /\
    (truthy (VStr "1") = false -> subscript mi "index" = Ok (VInt (-1))).
Proof.
  eexists. split; [reflexivity |].
  apply (index_of_sequence [] item_passed_unrecorded (VStr "1")); reflexivity.
Defined.

(** *** The scenarios of the specification *)

(** Scenario A: one candidate is the match, with the score 100, whatever
    its items hold. *)
Example scenario_single_candidate :
  get_matching_legistar_event_by_minutes_match sample_ratio lower [" budget amendment "]
    [VDict [("EventId", VInt 1);
            ("EventItems", VList [VDict [("EventItemTitle", VStr "Budget Amendment")]])]]
  = Ok (mkAgendaMatchResults
          (VDict [("EventId", VInt 1);
                  ("EventItems",
                   VList [VDict [("EventItemTitle", VStr "Budget Amendment")]])])
          [(VInt 1, 100)], []).
Proof. reflexivity. Qed.

(** Scenario B, with the fields there and [None]: the title names the
    item, the index is -1, the decision [None], the votes empty. *)
Example scenario_resolution :
  parse_event_item []
    (sample_item (VInt 31) VNone (VStr "Resolution 1") VNone VNone [] [])
  = Ok (Some (VDict
      [("name", VStr "Resolution 1"); ("matter", VStr "CB 1"); ("index", VInt (-1));
       ("legistar_event_item_id", VInt 31); ("decision", VNone);
       ("votes", VList []); ("attachments", VList [])])).
Proof. reflexivity. Qed.

(** Scenario B as it is written, with the sequence and the matter name
    absent from the item: the first lookup raises. *)
Example scenario_resolution_absent :
  parse_event_item []
    (VDict [("EventItemId", VInt 31); ("EventItemTitle", VStr "Resolution 1");
            ("EventItemPassedFlagName", VNone);
            ("EventItemMatterAttachments", VList []); ("EventItemVoteInfo", VList [])])
  = Err (KeyError "EventItemMatterName").
Proof. reflexivity. Qed.

(** *** When the Normalizer returns *)

(** The sort never raises on what the loop emitted: every minutes item
    carries an integer index. *)
Lemma sorted_by_index_emitted (ignore : list string) (raw : list value)
    (rs : list (option value)) :
  mapM (parse_event_item ignore) raw = Ok rs ->
  exists items, sorted_by_index (emitted rs) = Ok items.
Proof.
  intros Hrs. apply sorted_by_index_total. intros mi Hin.
  apply emitted_In in Hin.
  destruct (mapM_In _ _ _ _ Hrs Hin) as (item & _ & Hbody).
  destruct (parse_event_item_Some _ _ _ Hbody)
    as (name & matter & index & id & atts & flag & infos & votes
        & _ & _ & _ & _ & _ & _ & _ & _ & _ & ->).
  destruct (minutes_item_dict_fields name matter flag index id infos votes atts)
    as (_ & _ & Hi & _).
  exists index. unfold index_key. now rewrite Hi.
Qed.

(** X7. The Normalizer returns a record whenever the timestamp can be
    read, the loop body raises on none of the event items, and the five
    fields of the event are there with an identifier [int] accepts; the
    record holds the event's fields, the timestamp and the sorted
    minutes items. *)
Theorem normalizer_returns
    (strptime : string -> option datetime) (str_other : value -> string)
    (ev raw0 agenda body id0 link minutes_file : value) (raw : list value)
    (rs : list (option value)) (dt : datetime) (id : Z) (ignore : list string) :
  parse_event_datetime strptime str_other ev = Ok dt ->
  subscript ev "EventItems" = Ok raw0 -> iterate raw0 = Ok raw ->
  mapM (parse_event_item ignore) raw = Ok rs ->
  subscript ev "EventAgendaFile" = Ok agenda ->
  subscript ev "EventBodyName" = Ok body ->
  subscript ev "EventId" = Ok id0 -> py_int id0 = Ok id ->
  subscript ev "EventInSiteURL" = Ok link ->
  subscript ev "EventMinutesFile" = Ok minutes_file ->
  exists items,
    sorted_by_index (emitted rs) = Ok items /\
    parse_legistar_event_details strptime str_other ev ignore
    = Ok (VDict [("agenda_file_uri", agenda); ("body", body);
                 ("event_datetime", VDatetime dt); ("minutes_items", VList items);
                 ("legistar_event_id", VInt id); ("legistar_event_link", link);
                 ("minutes_file_uri", minutes_file)]).
Proof.
  intros Hdt Hraw0 Hraw Hrs Ha Hb Hid0 Hid Hl Hm.
  destruct (sorted_by_index_emitted _ _ _ Hrs) as (items & Hitems).
  exists items. split; [exact Hitems |].
  unfold parse_legistar_event_details.
  rewrite Hdt. simpl. rewrite Hraw0. simpl. rewrite Hraw. simpl.
  rewrite minutes_items_loop_mapM, Hrs. simpl. rewrite Hitems. simpl.
  rewrite Ha. simpl. rewrite Hb. simpl. rewrite Hid0. simpl. rewrite Hid. simpl.
  rewrite Hl. simpl. rewrite Hm. reflexivity.
Qed.

Lemma normalizer_returns_witness :
  exists items,
    sorted_by_index
      (emitted [Some (VDict
         [("name", VStr "Call to order"); ("matter", VStr "CB 1");
          ("index", VInt (-1)); ("legistar_event_item_id", VInt 13);
          ("decision", VNone); ("votes", VList []); ("attachments", VList [])])])
    = Ok items /\
    parse_legistar_event_details strptime_event_format str_unmodelled
      (sample_meeting [item_unflagged]) []
    = Ok (VDict [("agenda_file_uri", VStr "http://example.org/agenda.pdf");
                 ("body", VStr "City Council");
                 ("event_datetime", VDatetime (mkDatetime 2019 3 4 15 0));
                 ("minutes_items", VList items);
                 ("legistar_event_id", VInt 4052);
                 ("legistar_event_link", VStr "http://example.org/event");
                 ("minutes_file_uri", VNone)]).
Proof.
  apply (normalizer_returns strptime_event_format str_unmodelled
           (sample_meeting [item_unflagged]) (VList [item_unflagged])
           (VStr "http://example.org/agenda.pdf") (VStr "City Council")
           (VStr "4052") (VStr "http://example.org/event") VNone
           [item_unflagged]); reflexivity.
Defined.

(** ** The Fetcher *)

Example events_url_sample : events_url "seattle" march_4 march_5 = sample_events_url.
Proof. reflexivity. Qed.

Example fetch_sample :
  get_legistar_events_for_timespan sample_server str_unmodelled "seattle" march_4 march_5
  = Ok (sample_fetched,
        [sample_events_url;
         "http://webapi.legistar.com/v1/seattle/Events/4052/EventItems?AgendaNote=1&MinutesNote=1&Attachments=1";
         "http://webapi.legistar.com/v1/seattle/EventItems/11/Votes";
         "http://webapi.legistar.com/v1/seattle/Persons/42";
         "http://webapi.legistar.com/v1/seattle/EventItems/12/Votes"]).
Proof. reflexivity. Qed.

(** *** Computations that make requests *)

Lemma tbind_Ok {A B : Type} (m : traced A) (k : A -> traced B) (b : B)
    (urls : list string) :
  tbind m k = Ok (b, urls) ->
  exists a urls1 urls2,
    m = Ok (a, urls1) /\ k a = Ok (b, urls2) /\ urls = (urls1 ++ urls2)%list.
Proof.
  unfold tbind. destruct m as [e | [a urls1]]; [discriminate |].
  destruct (k a) as [e | [b' urls2]] eqn:Hk; [discriminate |].
  intros H. injection H as <- <-. now exists a, urls1, urls2.
Qed.

Lemma tbind_of_Ok {A B : Type} (m : traced A) (k : A -> traced B) (a : A) (b : B)
    (urls1 urls2 : list string) :
  m = Ok (a, urls1) -> k a = Ok (b, urls2) ->
  tbind m k = Ok (b, (urls1 ++ urls2)%list).
Proof. unfold tbind. intros Hm Hk. rewrite Hm. simpl. now rewrite Hk. Qed.

Lemma quiet_Ok {A : Type} (m : result A) (a : A) (urls : list string) :
  quiet m = Ok (a, urls) -> m = Ok a /\ urls = [].
Proof.
  unfold quiet. destruct m as [e | a']; [discriminate |].
  intros H. injection H as <- <-. now split.
Qed.

Lemma set_item_Ok (v v' x : value) (k : string) :
  set_item v k x = Ok v' -> adds_key k x v v'.
Proof.
  unfold set_item, adds_key. destruct v; try discriminate.
  intros H. injection H as <-. now exists d.
Qed.

Lemma adds_key_set_item (v v' x : value) (k : string) :
  adds_key k x v v' -> set_item v k x = Ok v'.
Proof. intros (d & -> & ->). reflexivity. Qed.

(** The loop body run on every element in turn: the results in order,
    and the requests of the elements one after the other. *)
Lemma tmapM_Ok {A B : Type} (f : A -> traced B) (l : list A) (bs : list B)
    (urls : list string) :
  tmapM f l = Ok (bs, urls) <->
  exists rs, Forall2 (fun a r => f a = Ok r) l rs /\
             bs = map fst rs /\ urls = List.concat (map snd rs).
Proof.
  revert bs urls. induction l as [| a l IH]; intros bs urls; simpl.
  - split.
    + intros H. injection H as <- <-. exists []. repeat split. constructor.
    + intros (rs & Hrs & -> & ->). inversion Hrs. reflexivity.
  - split.
    + intros H.
      apply tbind_Ok in H. destruct H as (b & u1 & u2 & Hb & H & ->).
      apply tbind_Ok in H. destruct H as (bs' & u3 & u4 & Hbs & H & ->).
      injection H as <- <-.
      apply IH in Hbs. destruct Hbs as (rs & Hrs & -> & ->).
      exists ((b, u1) :: rs). simpl. rewrite app_nil_r.
      repeat split. now constructor.
    + intros (rs & Hrs & -> & ->).
      inversion Hrs as [| ? [b u1] ? rs' Hb Hrest]; subst. simpl.
      assert (Hl : tmapM f l = Ok (map fst rs', List.concat (map snd rs'))).
      { apply IH. now exists rs'. }
      rewrite Hb. simpl. rewrite Hl. simpl. now rewrite app_nil_r.
Qed.

Lemma dict_set_over (k : string) (v w : value) (d : dict) :
  dict_set k v (dict_set k w d) = dict_set k v d.
Proof.
  induction d as [| [k' v'] d IH]; simpl.
  - now rewrite String.eqb_refl.
  - destruct (String.eqb k k') eqn:E; simpl; rewrite E; [reflexivity | now rewrite IH].
Qed.

(** An iterable that is no list holds text only. *)
Lemma iterate_not_list (v : value) (l : list value) :
  (forall l0, v <> VList l0) -> iterate v = Ok l ->
  Forall (fun x => exists s, x = VStr s) l.
Proof.
  intros Hv H. destruct v; simpl in H; try discriminate H.
  - injection H as <-. apply Forall_forall. intros x Hx.
    apply in_map_iff in Hx. destruct Hx as (c & <- & _). eauto.
  - exfalso. now apply (Hv l0).
  - injection H as <-. apply Forall_forall. intros x Hx.
    apply in_map_iff in Hx. destruct Hx as (kv & <- & _). eauto.
Qed.

(** The loop over a collection, for a body that raises on text (as every
    body here does: it starts with a lookup): it returns only on a list,
    whose elements it fills in one after the other, and on a collection
    without elements, which it leaves alone. *)
Lemma for_each_in_Ok (body : value -> traced value) (v out : value)
    (urls : list string) :
  (forall s r, body (VStr s) <> Ok r) ->
  for_each_in body v = Ok (out, urls) ->
  (exists l rs, v = VList l /\ Forall2 (fun a r => body a = Ok r) l rs /\
                out = VList (map fst rs) /\ urls = List.concat (map snd rs)) \/
  ((forall l, v <> VList l) /\ out = v /\ urls = [] /\ iterate v = Ok []).
Proof.
  intros Hbody H.
  assert (Hother : (forall l, v <> VList l) ->
            (l <~ quiet (iterate v) ;; _ <~ tmapM body l ;; quiet (Ok v))
            = Ok (out, urls) ->
            out = v /\ urls = [] /\ iterate v = Ok []).
  { intros Hv H'.
    apply tbind_Ok in H'. destruct H' as (l & u1 & u2 & Hl & H' & ->).
    apply quiet_Ok in Hl. destruct Hl as [Hl ->].
    apply tbind_Ok in H'. destruct H' as (l' & u3 & u4 & Hl' & H' & ->).
    apply quiet_Ok in H'. destruct H' as [H' ->]. injection H' as <-.
    apply tmapM_Ok in Hl'. destruct Hl' as (rs & Hrs & -> & ->).
    pose proof (iterate_not_list v l Hv Hl) as Hstr.
    destruct Hrs as [| x r l rs Hx Hrs].
    - now repeat split.
    - exfalso. inversion Hstr as [| ? ? (s & ->) _]; subst.
      now apply (Hbody s r). }
  assert (Hcase : (exists l, v = VList l) \/ (forall l, v <> VList l)).
  { destruct v; try (right; intros; discriminate). left. eauto. }
  destruct Hcase as [(l & ->) | Hv].
  - left. simpl in H.
    apply tbind_Ok in H. destruct H as (l' & u1 & u2 & Hl' & H & ->).
    injection H as <- <-.
    apply tmapM_Ok in Hl'. destruct Hl' as (rs & Hrs & -> & ->).
    exists l, rs. rewrite app_nil_r. now repeat split.
  - right. destruct (Hother Hv) as (Hout & Hurls & Hit).
    + destruct v; try exact H. exfalso. now apply (Hv l).
    + now repeat split.
Qed.

Lemma prefix_app (a b c : string) : String.prefix a ((a ++ b) ++ c) = true.
Proof.
  induction a as [| x a IH]; simpl; [now destruct (b ++ c) |].
  destruct (ascii_dec x x) as [_ | Hne]; [exact IH | contradiction].
Qed.

Lemma length_concat_ones {A : Type} (ls : list (list A)) :
  Forall (fun l => List.length l = 1%nat) ls ->
  List.length (List.concat ls) = List.length ls.
Proof.
  induction 1 as [| l ls Hl _ IH]; simpl; [reflexivity |].
  rewrite length_app, Hl, IH. reflexivity.
Qed.

Lemma length_concat_sum {A B : Type} (cost : B -> nat) (rs : list (B * list A)) :
  Forall (fun r => List.length (snd r) = cost (fst r)) rs ->
  List.length (List.concat (map snd rs)) = list_sum (map cost (map fst rs)).
Proof.
  induction 1 as [| r rs Hr _ IH]; simpl; [reflexivity |].
  rewrite length_app, Hr, IH. reflexivity.
Qed.

Lemma Forall_concat {A : Type} (P : A -> Prop) (ls : list (list A)) :
  Forall (Forall P) ls -> Forall P (List.concat ls).
Proof.
  induction 1 as [| l ls Hl _ IH]; simpl; [constructor |].
  apply Forall_app. now split.
Qed.

(** What a loop body establishes for every element carries over to the
    results of the loop. *)
Lemma Forall2_results {A B C : Type} (f : A -> result (B * C)) (P : A -> B -> C -> Prop)
    (l : list A) (rs : list (B * C)) :
  (forall a b c, f a = Ok (b, c) -> P a b c) ->
  Forall2 (fun a r => f a = Ok r) l rs ->
  Forall2 (fun a r => P a (fst r) (snd r)) l rs.
Proof.
  intros HP H. induction H as [| a [b c] l rs Ha _ IH]; constructor; [| exact IH].
  now apply HP.
Qed.

Lemma Forall2_fst {A B C : Type} (R : A -> B -> Prop) (l : list A) (rs : list (B * C)) :
  Forall2 (fun a r => R a (fst r)) l rs -> Forall2 R l (map fst rs).
Proof. induction 1; simpl; constructor; assumption. Qed.

Lemma Forall2_right {A B : Type} (P : B -> Prop) (l : list A) (rs : list B) :
  Forall2 (fun _ r => P r) l rs -> Forall P rs.
Proof. induction 1; constructor; assumption. Qed.

Lemma Forall2_In_left {A B : Type} (R : A -> B -> Prop) (l : list A) (l' : list B)
    (a : A) :
  Forall2 R l l' -> In a l -> exists b, In b l' /\ R a b.
Proof.
  induction 1 as [| x y l l' Hxy _ IH]; intros Hin; [destruct Hin |].
  destruct Hin as [-> | Hin].
  - exists y. split; [now left | assumption].
  - destruct (IH Hin) as (b & Hb & Hab). exists b. split; [now right | assumption].
Qed.

Section FetcherProperties.

Variable get_json : string -> result value.
Variable str_other : value -> string.
Variable client : string.

Local Abbreviation person_body := (fetch_person get_json str_other client).
Local Abbreviation votes_body := (fetch_votes get_json str_other client).
Local Abbreviation items_body := (fetch_event_items get_json str_other client).

Lemma request_Ok (url : string) (v : value) (urls : list string) :
  request get_json url = Ok (v, urls) -> get_json url = Ok v /\ urls = [url].
Proof.
  unfold request. destruct (get_json url) as [e | v']; [discriminate |].
  intros H. injection H as <- <-. now split.
Qed.

(** One person is requested for a vote, at the address of the vote's
    [VotePersonId]. *)
Lemma fetch_person_Ok (vote vote' : value) (urls : list string) :
  person_body vote = Ok (vote', urls) ->
  person_filled get_json str_other client vote vote' /\
  List.length urls = 1%nat /\ Forall (under_base client) urls.
Proof.
  unfold fetch_person. intros H.
  apply tbind_Ok in H. destruct H as (pid & u1 & u2 & Hpid & H & ->).
  apply quiet_Ok in Hpid. destruct Hpid as [Hpid ->].
  apply tbind_Ok in H. destruct H as (p & u3 & u4 & Hp & H & ->).
  apply request_Ok in Hp. destruct Hp as [Hp ->].
  apply quiet_Ok in H. destruct H as [H ->]. apply set_item_Ok in H.
  repeat split.
  - now exists pid, p.
  - repeat constructor. apply prefix_app.
Qed.

Lemma person_body_text (s : string) (r : value * list string) :
  person_body (VStr s) <> Ok r.
Proof. discriminate. Qed.

Lemma votes_body_text (s : string) (r : value * list string) :
  votes_body (VStr s) <> Ok r.
Proof. discriminate. Qed.

Lemma items_body_text (s : string) (r : value * list string) :
  items_body (VStr s) <> Ok r.
Proof. discriminate. Qed.

(** The votes of an item, and a person per vote. *)
Lemma fetch_votes_Ok (item item' : value) (urls : list string) :
  votes_body item = Ok (item', urls) ->
  votes_filled get_json str_other client item item' /\
  List.length urls = item_requests item' /\ Forall (under_base client) urls.
Proof.
  unfold fetch_votes. intros H.
  apply tbind_Ok in H. destruct H as (id & u1 & u2 & Hid & H & ->).
  apply quiet_Ok in Hid. destruct Hid as [Hid ->].
  apply tbind_Ok in H. destruct H as (votes & u3 & u4 & Hvotes & H & ->).
  apply request_Ok in Hvotes. destruct Hvotes as [Hvotes ->].
  apply tbind_Ok in H. destruct H as (item1 & u5 & u6 & Hset & H & ->).
  apply quiet_Ok in Hset. destruct Hset as [Hset ->].
  apply set_item_Ok in Hset. destruct Hset as (d & -> & ->).
  apply tbind_Ok in H. destruct H as (votes1 & u7 & u8 & Hget & H & ->).
  apply quiet_Ok in Hget. destruct Hget as [Hget ->].
  unfold subscript in Hget. rewrite dict_get_set_same in Hget. injection Hget as <-.
  apply tbind_Ok in H. destruct H as (votes' & u9 & u10 & Hloop & H & ->).
  apply quiet_Ok in H. destruct H as [H ->].
  unfold set_item in H. rewrite dict_set_over in H. injection H as <-.
  assert (Hbase : under_base client (votes_url client (py_str str_other id))).
  { apply prefix_app. }
  destruct (for_each_in_Ok _ _ _ _ person_body_text Hloop)
    as [(l & rs & -> & Hrs & -> & ->) | (Hnl & -> & -> & Hempty)].
  - pose proof (Forall2_results _
        (fun vote vote' us =>
           person_filled get_json str_other client vote vote' /\
           List.length us = 1%nat /\ Forall (under_base client) us)
        l rs fetch_person_Ok Hrs) as Hall.
    repeat split.
    + exists id, (VList l), (VList (map fst rs)). repeat split; try assumption.
      * left. exists l, (map fst rs). repeat split.
        apply Forall2_fst. eapply Forall2_impl; [| exact Hall]. now intros a r (? & _).
      * now exists d.
    + unfold item_requests, field, subscript, elements.
      rewrite dict_get_set_same. cbn [iterate app List.length Ok].
      rewrite app_nil_r, length_map. f_equal.
      rewrite length_concat_ones, length_map; [reflexivity |].
      apply Forall_map. apply (Forall2_right _ l).
      eapply Forall2_impl; [| exact Hall]. now intros a r (_ & ? & _).
    + simpl. rewrite app_nil_r. constructor; [exact Hbase |].
      apply Forall_concat, Forall_map. apply (Forall2_right _ l).
      eapply Forall2_impl; [| exact Hall]. now intros a r (_ & _ & ?).
  - repeat split.
    + exists id, votes, votes. repeat split; try assumption.
      * now right.
      * now exists d.
    + unfold item_requests, field, subscript, elements.
      rewrite dict_get_set_same. cbn [Ok]. rewrite Hempty. reflexivity.
    + simpl. now repeat constructor.
Qed.

(** The items of an event, the votes of every item, a person per vote. *)
Lemma fetch_event_items_Ok (event event' : value) (urls : list string) :
  items_body event = Ok (event', urls) ->
  items_filled get_json str_other client event event' /\
  List.length urls = event_requests event' /\ Forall (under_base client) urls.
Proof.
  unfold fetch_event_items. intros H.
  apply tbind_Ok in H. destruct H as (id & u1 & u2 & Hid & H & ->).
  apply quiet_Ok in Hid. destruct Hid as [Hid ->].
  apply tbind_Ok in H. destruct H as (items & u3 & u4 & Hitems & H & ->).
  apply request_Ok in Hitems. destruct Hitems as [Hitems ->].
  apply tbind_Ok in H. destruct H as (event1 & u5 & u6 & Hset & H & ->).
  apply quiet_Ok in Hset. destruct Hset as [Hset ->].
  apply set_item_Ok in Hset. destruct Hset as (d & -> & ->).
  apply tbind_Ok in H. destruct H as (items1 & u7 & u8 & Hget & H & ->).
  apply quiet_Ok in Hget. destruct Hget as [Hget ->].
  unfold subscript in Hget. rewrite dict_get_set_same in Hget. injection Hget as <-.
  apply tbind_Ok in H. destruct H as (items' & u9 & u10 & Hloop & H & ->).
  apply quiet_Ok in H. destruct H as [H ->].
  unfold set_item in H. rewrite dict_set_over in H. injection H as <-.
  assert (Hbase : under_base client (event_items_url client (py_str str_other id))).
  { unfold under_base, event_items_url, LEGISTAR_EVENT_BASE.
    change (?a ++ "/" ++ ?b ++ ?c) with (a ++ ("/" ++ b ++ c)). apply prefix_app. }
  destruct (for_each_in_Ok _ _ _ _ votes_body_text Hloop)
    as [(l & rs & -> & Hrs & -> & ->) | (Hnl & -> & -> & Hempty)].
  - pose proof (Forall2_results _
        (fun item item' us =>
           votes_filled get_json str_other client item item' /\
           List.length us = item_requests item' /\ Forall (under_base client) us)
        l rs fetch_votes_Ok Hrs) as Hall.
    repeat split.
    + exists id, (VList l), (VList (map fst rs)). repeat split; try assumption.
      * left. exists l, (map fst rs). repeat split.
        apply Forall2_fst. eapply Forall2_impl; [| exact Hall]. now intros a r (? & _).
      * now exists d.
    + unfold event_requests, field, subscript, elements.
      rewrite dict_get_set_same. cbn [iterate app List.length Ok].
      rewrite app_nil_r. f_equal. apply length_concat_sum.
      apply (Forall2_right _ l).
      eapply Forall2_impl; [| exact Hall]. now intros a r (_ & ? & _).
    + simpl. rewrite app_nil_r. constructor; [exact Hbase |].
      apply Forall_concat, Forall_map. apply (Forall2_right _ l).
      eapply Forall2_impl; [| exact Hall]. now intros a r (_ & _ & ?).
  - repeat split.
    + exists id, items, items. repeat split; try assumption.
      * now right.
      * now exists d.
    + unfold event_requests, field, subscript, elements.
      rewrite dict_get_set_same. cbn [Ok]. rewrite Hempty. reflexivity.
    + simpl. now repeat constructor.
Qed.

(** The whole call, read back from its result. *)
Lemma get_legistar_events_for_timespan_Ok (begin end_ : datetime) (r : value)
    (urls : list string) :
  get_legistar_events_for_timespan get_json str_other client begin end_ = Ok (r, urls) ->
  (exists response,
     get_json (events_url client begin end_) = Ok response /\
     each_filled (items_filled get_json str_other client) response r) /\
  List.length urls = total_requests r /\
  Forall (under_base client) urls /\
  hd_error urls = Some (events_url client begin end_).
Proof.
  unfold get_legistar_events_for_timespan. intros H.
  apply tbind_Ok in H. destruct H as (response & u1 & u2 & Hresp & H & ->).
  apply request_Ok in Hresp. destruct Hresp as [Hresp ->].
  assert (Hbase : under_base client (events_url client begin end_)).
  { apply prefix_app. }
  destruct (for_each_in_Ok _ _ _ _ items_body_text H)
    as [(l & rs & -> & Hrs & -> & ->) | (Hnl & -> & -> & Hempty)].
  - pose proof (Forall2_results _
        (fun event event' us =>
           items_filled get_json str_other client event event' /\
           List.length us = event_requests event' /\ Forall (under_base client) us)
        l rs fetch_event_items_Ok Hrs) as Hall.
    repeat split.
    + exists (VList l). split; [assumption |].
      left. exists l, (map fst rs). repeat split.
      apply Forall2_fst. eapply Forall2_impl; [| exact Hall]. now intros a r (? & _).
    + unfold total_requests, elements. cbn [iterate app List.length Ok].
      f_equal. apply length_concat_sum.
      apply (Forall2_right _ l).
      eapply Forall2_impl; [| exact Hall]. now intros a r (_ & ? & _).
    + simpl. constructor; [exact Hbase |].
      apply Forall_concat, Forall_map. apply (Forall2_right _ l).
      eapply Forall2_impl; [| exact Hall]. now intros a r (_ & _ & ?).
  - repeat split.
    + exists response. split; [assumption | now right].
    + unfold total_requests, elements. rewrite Hempty. reflexivity.
    + simpl. now repeat constructor.
Qed.

(** The other way round: what is filled in as the notions say is what
    the loops return. *)
Lemma for_each_in_filled (body : value -> traced value) (R : value -> value -> Prop)
    (raw out : value) :
  (forall a a', R a a' -> exists urls, body a = Ok (a', urls)) ->
  each_filled R raw out ->
  exists urls, for_each_in body raw = Ok (out, urls).
Proof.
  intros Hbody [(l & l' & -> & -> & Hall) | (-> & Hempty)].
  - assert (Hrs : exists rs, Forall2 (fun a r => body a = Ok r) l rs /\ l' = map fst rs).
    { induction Hall as [| a a' l l' Ha _ (rs & Hrs & ->)].
      - exists []. split; [constructor | reflexivity].
      - destruct (Hbody a a' Ha) as (urls & Hurls).
        exists ((a', urls) :: rs). split; [now constructor | reflexivity]. }
    destruct Hrs as (rs & Hrs & ->).
    assert (Hl : tmapM body l = Ok (map fst rs, List.concat (map snd rs))).
    { apply tmapM_Ok. now exists rs. }
    simpl. rewrite Hl. simpl. eexists. reflexivity.
  - exists []. destruct raw; simpl in *; try discriminate Hempty.
    + now injection Hempty as ->.
    + now injection Hempty as ->.
    + now injection Hempty as ->.
Qed.

Lemma fetch_person_filled (vote vote' : value) :
  person_filled get_json str_other client vote vote' ->
  exists urls, person_body vote = Ok (vote', urls).
Proof.
  intros (pid & p & Hpid & Hp & Hadd). unfold fetch_person, request.
  rewrite Hpid. simpl. rewrite Hp. simpl.
  rewrite (adds_key_set_item _ _ _ _ Hadd). simpl. eexists. reflexivity.
Qed.

Lemma fetch_votes_filled (item item' : value) :
  votes_filled get_json str_other client item item' ->
  exists urls, votes_body item = Ok (item', urls).
Proof.
  intros (id & votes & votes' & Hid & Hvotes & Heach & (d & -> & ->)).
  destruct (for_each_in_filled _ _ _ _ fetch_person_filled Heach) as (urls & Hloop).
  unfold fetch_votes, request. rewrite Hid. simpl. rewrite Hvotes. simpl.
  unfold subscript. rewrite dict_get_set_same. simpl. rewrite Hloop. simpl.
  rewrite dict_set_over. eexists. reflexivity.
Qed.

Lemma fetch_event_items_filled (event event' : value) :
  items_filled get_json str_other client event event' ->
  exists urls, items_body event = Ok (event', urls).
Proof.
  intros (id & items & items' & Hid & Hitems & Heach & (d & -> & ->)).
  destruct (for_each_in_filled _ _ _ _ fetch_votes_filled Heach) as (urls & Hloop).
  unfold fetch_event_items, request. rewrite Hid. simpl. rewrite Hitems. simpl.
  unfold subscript. rewrite dict_get_set_same. simpl. rewrite Hloop. simpl.
  rewrite dict_set_over. eexists. reflexivity.
Qed.

Lemma get_legistar_events_for_timespan_filled (begin end_ : datetime)
    (response r : value) :
  get_json (events_url client begin end_) = Ok response ->
  each_filled (items_filled get_json str_other client) response r ->
  exists urls,
    get_legistar_events_for_timespan get_json str_other client begin end_
    = Ok (r, urls).
Proof.
  intros Hresp Heach.
  destruct (for_each_in_filled _ _ _ _ fetch_event_items_filled Heach) as (urls & Hloop).
  unfold get_legistar_events_for_timespan, request. rewrite Hresp. simpl.
  rewrite Hloop. eexists. reflexivity.
Qed.

End FetcherProperties.

(** *** What the Fetcher returns *)

(** X8. The Fetcher returns [r] exactly when the server answers the
    query for the timespan and [r] is that answer filled in: every event
    of the list is the event the server sent with its items stored under
    ["EventItems"], every item is the item the server sent for that
    event with its votes under ["EventItemVoteInfo"], and every vote is
    the vote the server sent for that item with the person of its
    [VotePersonId] under ["PersonInfo"]; nothing else is changed. An
    answer that is no list comes back as it is when it has no elements. *)
Theorem fetcher_fills_in
    (get_json : string -> result value) (str_other : value -> string)
    (client : string) (begin end_ : datetime) (r : value) :
  (exists urls,
     get_legistar_events_for_timespan get_json str_other client begin end_
     = Ok (r, urls))
  <->
  (exists response,
     get_json (events_url client begin end_) = Ok response /\
     each_filled (items_filled get_json str_other client) response r).
Proof.
  split.
  - intros (urls & H).
    now destruct (get_legistar_events_for_timespan_Ok _ _ _ _ _ _ _ H) as (Hr & _).
  - intros (response & Hresp & Heach).
    now apply (get_legistar_events_for_timespan_filled _ _ _ _ _ response).
Qed.

(** X9. The Fetcher makes one request for the events, one per event for
    its items, one per item for its votes and one per vote for its
    person: as many as [total_requests] counts on the result. *)
Theorem fetcher_request_count
    (get_json : string -> result value) (str_other : value -> string)
    (client : string) (begin end_ : datetime) (r : value) (urls : list string) :
  get_legistar_events_for_timespan get_json str_other client begin end_ = Ok (r, urls) ->
  List.length urls = total_requests r.
Proof.
  intros H.
  now destruct (get_legistar_events_for_timespan_Ok _ _ _ _ _ _ _ H) as (_ & Hn & _).
Qed.

Lemma fetcher_request_count_witness :
  List.length
    [sample_events_url;
     "http://webapi.legistar.com/v1/seattle/Events/4052/EventItems?AgendaNote=1&MinutesNote=1&Attachments=1";
     "http://webapi.legistar.com/v1/seattle/EventItems/11/Votes";
     "http://webapi.legistar.com/v1/seattle/Persons/42";
     "http://webapi.legistar.com/v1/seattle/EventItems/12/Votes"]
  = total_requests sample_fetched.
Proof.
  apply (fetcher_request_count sample_server str_unmodelled "seattle" march_4 march_5).
  reflexivity.
Defined.

(** X10. Every request of the Fetcher goes to an address under the base
    address of the client, and the first one is the query for the
    timespan. *)
Theorem fetcher_requests_under_base
    (get_json : string -> result value) (str_other : value -> string)
    (client : string) (begin end_ : datetime) (r : value) (urls : list string) :
  get_legistar_events_for_timespan get_json str_other client begin end_ = Ok (r, urls) ->
  Forall (under_base client) urls /\
  hd_error urls = Some (events_url client begin end_).
Proof.
  intros H.
  now destruct (get_legistar_events_for_timespan_Ok _ _ _ _ _ _ _ H) as (_ & _ & Hb).
Qed.

Lemma fetcher_requests_under_base_witness :
  exists r urls,
    get_legistar_events_for_timespan sample_server str_unmodelled "seattle"
      march_4 march_5 = Ok (r, urls) /\
    Forall (under_base "seattle") urls /\
    hd_error urls = Some (events_url "seattle" march_4 march_5).
Proof.
  eexists. eexists. split; [reflexivity |].
  apply (fetcher_requests_under_base sample_server str_unmodelled "seattle"
           march_4 march_5 sample_fetched).
  reflexivity.
Defined.

Lemma each_filled_elements (R : value -> value -> Prop) (raw out x' : value) :
  each_filled R raw out -> In x' (elements out) -> exists x, R x x'.
Proof.
  intros [(l & l' & -> & -> & Hall) | (-> & Hempty)] Hin.
  - unfold elements in Hin. simpl in Hin.
    induction Hall as [| a a' l l' Ha _ IH]; [destruct Hin |].
    destruct Hin as [<- | Hin]; [now exists a | now apply IH].
  - unfold elements in Hin. rewrite Hempty in Hin. destruct Hin.
Qed.

(** X11. What the Fetcher returns is filled in all the way down: every
    event of the result has its ["EventItems"], every item among them
    its ["EventItemVoteInfo"], and every vote among those its
    ["PersonInfo"], so the lookups of these keys in the Matcher and the
    Normalizer succeed. *)
Theorem fetcher_result_is_complete
    (get_json : string -> result value) (str_other : value -> string)
    (client : string) (begin end_ : datetime) (r : value) (urls : list string) :
  get_legistar_events_for_timespan get_json str_other client begin end_ = Ok (r, urls) ->
  forall event, In event (elements r) ->
    exists items,
      subscript event "EventItems" = Ok items /\
      forall item, In item (elements items) ->
        exists votes,
          subscript item "EventItemVoteInfo" = Ok votes /\
          forall vote, In vote (elements votes) ->
            exists person, subscript vote "PersonInfo" = Ok person.
Proof.
  intros H event Hevent.
  destruct (get_legistar_events_for_timespan_Ok _ _ _ _ _ _ _ H)
    as ((response & _ & Heach) & _).
  destruct (each_filled_elements _ _ _ _ Heach Hevent)
    as (ev0 & id & items & items' & _ & _ & Hitems & (d & -> & ->)).
  exists items'. unfold subscript at 1. rewrite dict_get_set_same.
  split; [reflexivity |]. intros item Hitem.
  destruct (each_filled_elements _ _ _ _ Hitems Hitem)
    as (it0 & iid & votes & votes' & _ & _ & Hvotes & (d' & -> & ->)).
  exists votes'. unfold subscript at 1. rewrite dict_get_set_same.
  split; [reflexivity |]. intros vote Hvote.
  destruct (each_filled_elements _ _ _ _ Hvotes Hvote)
    as (v0 & pid & person & _ & _ & (d'' & -> & ->)).
  exists person. unfold subscript. now rewrite dict_get_set_same.
Qed.

Lemma fetcher_result_is_complete_witness :
  get_legistar_events_for_timespan sample_server str_unmodelled "seattle"
    march_4 march_5
  = Ok (sample_fetched,
        [sample_events_url;
         "http://webapi.legistar.com/v1/seattle/Events/4052/EventItems?AgendaNote=1&MinutesNote=1&Attachments=1";
         "http://webapi.legistar.com/v1/seattle/EventItems/11/Votes";
         "http://webapi.legistar.com/v1/seattle/Persons/42";
         "http://webapi.legistar.com/v1/seattle/EventItems/12/Votes"]) /\
  forall event, In event (elements sample_fetched) ->
    exists items,
      subscript event "EventItems" = Ok items /\
      forall item, In item (elements items) ->
        exists votes,
          subscript item "EventItemVoteInfo" = Ok votes /\
          forall vote, In vote (elements votes) ->
            exists person, subscript vote "PersonInfo" = Ok person.
Proof.
  split; [reflexivity |].
  apply (fetcher_result_is_complete sample_server str_unmodelled "seattle"
           march_4 march_5 sample_fetched
           [sample_events_url;
            "http://webapi.legistar.com/v1/seattle/Events/4052/EventItems?AgendaNote=1&MinutesNote=1&Attachments=1";
            "http://webapi.legistar.com/v1/seattle/EventItems/11/Votes";
            "http://webapi.legistar.com/v1/seattle/Persons/42";
            "http://webapi.legistar.com/v1/seattle/EventItems/12/Votes"]).
  reflexivity.
Defined.

(** *** Answers the Fetcher cannot use *)

(** X12. When the server answers the query for the timespan with
    something that is no list and has elements to visit (the JSON object
    of an error message, a text) or cannot be visited at all ([null], a
    number), the Fetcher raises [TypeError]. *)
Theorem fetcher_rejects_non_list
    (get_json : string -> result value) (str_other : value -> string)
    (client : string) (begin end_ : datetime) (response : value) :
  get_json (events_url client begin end_) = Ok response ->
  (forall l, response <> VList l) ->
  iterate response <> Ok [] ->
  get_legistar_events_for_timespan get_json str_other client begin end_
  = Err TypeError.
Proof.
  intros Hresp Hnl Hne. unfold get_legistar_events_for_timespan, request.
  rewrite Hresp. cbn [tbind].
  destruct response as [| b | z | q | s | l | d | t]; try reflexivity.
  - destruct s as [| c s]; [now contradiction Hne | reflexivity].
  - now contradiction (Hnl l).
  - destruct d as [| [k v] d]; [now contradiction Hne | reflexivity].
Qed.

Lemma fetcher_rejects_non_list_witness :
  get_legistar_events_for_timespan failing_server str_unmodelled "seattle"
    march_4 march_5
  = Err TypeError.
Proof.
  apply (fetcher_rejects_non_list failing_server str_unmodelled "seattle"
           march_4 march_5 (VDict [("Message", VStr "An error has occurred.")])).
  - reflexivity.
  - discriminate.
  - discriminate.
Defined.

(** X13. An event of the answer that has no ["EventId"] makes the whole
    call fail: no list is returned, not even of the events before it. *)
Theorem fetcher_needs_event_id
    (get_json : string -> result value) (str_other : value -> string)
    (client : string) (begin end_ : datetime) (events : list value) (d : dict) :
  get_json (events_url client begin end_) = Ok (VList events) ->
  In (VDict d) events ->
  dict_get "EventId" d = None ->
  exists e,
    get_legistar_events_for_timespan get_json str_other client begin end_ = Err e.
Proof.
  intros Hresp Hin Hid.
  destruct (get_legistar_events_for_timespan get_json str_other client begin end_)
    as [e | [r urls]] eqn:H; [now exists e |].
  exfalso.
  destruct (get_legistar_events_for_timespan_Ok _ _ _ _ _ _ _ H)
    as ((response & Hresp' & Heach) & _).
  rewrite Hresp in Hresp'. injection Hresp' as <-.
  destruct Heach as [(l & l' & Hl & -> & Hall) | (_ & Hempty)].
  - injection Hl as <-.
    destruct (Forall2_In_left _ _ _ _ Hall Hin) as (ev' & _ & (id & ? & ? & Hlook & _)).
    unfold subscript in Hlook. rewrite Hid in Hlook. discriminate Hlook.
  - simpl in Hempty. injection Hempty as ->. destruct Hin.
Qed.

Lemma fetcher_needs_event_id_witness :
  exists e,
    get_legistar_events_for_timespan
      (fun _ => Ok (VList [VDict [("EventBodyName", VStr "City Council")]]))
      str_unmodelled "seattle" march_4 march_5 = Err e.
Proof.
  apply (fetcher_needs_event_id
           (fun _ => Ok (VList [VDict [("EventBodyName", VStr "City Council")]]))
           str_unmodelled "seattle" march_4 march_5
           [VDict [("EventBodyName", VStr "City Council")]]
           [("EventBodyName", VStr "City Council")]).
  - reflexivity.
  - now left.
  - reflexivity.
Defined.

(** *** From the Fetcher to the Normalizer *)

(** X14. The person of a normalized vote is the person the server
    returned for the vote's [VotePersonId]: for a vote the Fetcher
    filled in, the Normalizer's vote carries that person's name, email,
    phone, website and identifier. *)
Theorem fetched_person_reaches_vote
    (get_json : string -> result value) (str_other : value -> string)
    (client : string) (vote vote' out : value) (urls : list string) :
  fetch_person get_json str_other client vote = Ok (vote', urls) ->
  parse_vote vote' = Ok out ->
  exists person_id person,
    subscript vote "VotePersonId" = Ok person_id /\
    get_json (person_url client (py_str str_other person_id)) = Ok person /\
    subscript2 out "person" "full_name" = subscript person "PersonFullName" /\
    subscript2 out "person" "email" = subscript person "PersonEmail" /\
    subscript2 out "person" "phone" = subscript person "PersonPhone" /\
    subscript2 out "person" "website" = subscript person "PersonWWW" /\
    subscript2 out "person" "legistar_person_id" = subscript person "PersonId".
Proof.
  intros Hfetch Hvote.
  destruct (fetch_person_Ok _ _ _ _ _ _ Hfetch)
    as ((pid & person & Hpid & Hperson & (d & -> & ->)) & _).
  exists pid, person. split; [assumption |]. split; [assumption |].
  unfold parse_vote in Hvote.
  apply bind_Ok in Hvote. destruct Hvote as (decision & _ & Hvote).
  apply bind_Ok in Hvote. destruct Hvote as (id0 & _ & Hvote).
  apply bind_Ok in Hvote. destruct Hvote as (vote_id & _ & Hvote).
  assert (Hsub : forall k,
             subscript2 (VDict (dict_set "PersonInfo" person d)) "PersonInfo" k
             = subscript person k).
  { intros k. unfold subscript2.
    replace (subscript (VDict (dict_set "PersonInfo" person d)) "PersonInfo")
      with (Ok person : result value); [reflexivity |].
    unfold subscript. now rewrite dict_get_set_same. }
  rewrite !Hsub in Hvote.
  apply bind_Ok in Hvote. destruct Hvote as (full_name & Hfn & Hvote).
  apply bind_Ok in Hvote. destruct Hvote as (email & Hem & Hvote).
  apply bind_Ok in Hvote. destruct Hvote as (phone & Hph & Hvote).
  apply bind_Ok in Hvote. destruct Hvote as (website & Hww & Hvote).
  apply bind_Ok in Hvote. destruct Hvote as (person_id & Hpi & Hvote).
  injection Hvote as <-. rewrite Hfn, Hem, Hph, Hww, Hpi. now repeat split.
Qed.

Lemma fetched_person_reaches_vote_witness :
  exists person_id person,
    subscript vote_sent "VotePersonId" = Ok person_id /\
    person_server (person_url "seattle" (py_str str_unmodelled person_id)) = Ok person /\
    subscript2 vote_normalized "person" "full_name" = subscript person "PersonFullName" /\
    subscript2 vote_normalized "person" "email" = subscript person "PersonEmail" /\
    subscript2 vote_normalized "person" "phone" = subscript person "PersonPhone" /\
    subscript2 vote_normalized "person" "website" = subscript person "PersonWWW" /\
    subscript2 vote_normalized "person" "legistar_person_id"
    = subscript person "PersonId".
Proof.
  apply (fetched_person_reaches_vote person_server str_unmodelled "seattle"
           vote_sent vote_fetched vote_normalized
           ["http://webapi.legistar.com/v1/seattle/Persons/42"]);
    reflexivity.
Defined.

(** ** More on the Matcher *)




Section MatcherScores.

Variable token_set_ratio : list string -> list value -> Z.
Variable targets : list string.

Local Abbreviation score := (event_match_score token_set_ratio targets).
Local Abbreviation loop := (match_loop token_set_ratio targets).



(** Every candidate of a run that returns has a score. *)
Lemma match_loop_scored (events : list value) (st st' : match_state) :
  loop st events = Ok st' ->
  forall e, In e events -> exists s k, score e = Ok s /\ event_key e = Ok k.
Proof.
  revert st. induction events as [| e events IH]; intros st H e0 Hin; simpl in H.
  - destruct Hin.
  - apply bind_Ok in H. destruct H as (st1 & Hst1 & H).
    destruct Hin as [<- | Hin]; [| now apply (IH st1)].
    destruct (match_event_Ok _ _ _ _ _ Hst1) as (names & k & _ & Hk & Hs & _).
    eauto.
Qed.


End MatcherScores.



(** X16. With two or more candidates, no entry of the score map exceeds
    the score of the selected event: when an event is selected it is one
    of the candidates, its score is greater than 0 and every score in
    the map is at most that score; when none is selected every score in
    the map is at most 0. *)
Theorem matcher_selected_bounds_scores
    (token_set_ratio : list string -> list value -> Z) (str_lower : string -> string)
    (targets : list string) (events : list value)
    (r : AgendaMatchResults) (calls : list ratio_call) :
  (2 <= List.length events)%nat ->
  get_matching_legistar_event_by_minutes_match token_set_ratio str_lower targets events
  = Ok (r, calls) ->
  (selected_event r = VNone /\
   forall x, In x (map snd (match_scores r)) -> x <= 0)
  \/
  (In (selected_event r) events /\
   exists m,
     event_match_score token_set_ratio (map str_lower targets) (selected_event r) = Ok m /\
     0 < m /\
     forall x, In x (map snd (match_scores r)) -> x <= m).
Proof.
  intros Hlen H. rewrite matcher_many in H by exact Hlen.
  apply bind_Ok in H. destruct H as (st & Hst & H). injection H as <- _. simpl.
  destruct (match_loop_provenance _ _ _ _ _ Hst) as [_ Hvals].
  destruct (match_loop_selects _ _ _ _ _ Hst)
    as [(Hle & _ & Hsel) | (pre & e & post & m & Hev & Hm & Hlt & Hpre & Hpost & _ & Hsel)].
  - left. split; [exact Hsel |]. intros x Hx.
    destruct (Hvals x Hx) as [[] | (e0 & Hin & Hs0)]. now apply (Hle e0).
  - right. rewrite Hsel. split; [rewrite Hev; apply in_elt |].
    exists m. repeat split; [assumption | assumption |]. intros x Hx.
    destruct (Hvals x Hx) as [[] | (e0 & Hin & Hs0)].
    rewrite Hev in Hin. apply in_app_or in Hin. destruct Hin as [Hin | [<- | Hin]].
    + specialize (Hpre e0 x Hin Hs0). lia.
    + rewrite Hm in Hs0. injection Hs0 as <-. lia.
    + now apply (Hpost e0).
Qed.

Lemma matcher_selected_bounds_scores_witness :
  (selected_event (mkAgendaMatchResults candidate_title
                     [(VInt 1, 0); (VInt 2, 25); (VInt 3, 25)]) = VNone /\
   forall x, In x (map snd [(VInt 1, 0); (VInt 2, 25); (VInt 3, 25)]) -> x <= 0)
  \/
  (In candidate_title [candidate_empty; candidate_title; candidate_matter] /\
   exists m,
     event_match_score sample_ratio (map lower ["Budget"; "Roads"]) candidate_title
     = Ok m /\
     0 < m /\
     forall x, In x (map snd [(VInt 1, 0); (VInt 2, 25); (VInt 3, 25)]) -> x <= m).
Proof.
  apply (matcher_selected_bounds_scores sample_ratio lower ["Budget"; "Roads"]
           [candidate_empty; candidate_title; candidate_matter]
           (mkAgendaMatchResults candidate_title
              [(VInt 1, 0); (VInt 2, 25); (VInt 3, 25)])
           [(["budget"; "roads"], []);
            (["budget"; "roads"], [VStr "budget"]);
            (["budget"; "roads"], [VStr "budget"])]).
  - simpl. lia.
  - reflexivity.
Defined.

(** The entry of the selected event need not be its own score: a later
    candidate under the same identifier overwrites it. *)
Example matcher_selected_entry_overwritten :
  get_matching_legistar_event_by_minutes_match sample_ratio lower ["Budget"; "Roads"]
    [candidate_again; candidate_title]
  = Ok (mkAgendaMatchResults candidate_again [(VInt 2, 25)],
        [(["budget"; "roads"], [VStr "roads"; VStr "budget"]);
         (["budget"; "roads"], [VStr "budget"])]).
Proof. reflexivity. Qed.

(** ** More on the Normalizer *)

(** The loop body skips exactly the items whose name is on the ignore
    list. *)
Lemma parse_event_item_ignored (ignore : list string) (item : value)
    (r : option value) :
  parse_event_item ignore item = Ok r ->
  ignored ignore item = match r with None => true | Some _ => false end.
Proof.
  intros H. destruct r as [mi |].
  - destruct (parse_event_item_Some _ _ _ H)
      as (name & matter & index & id & atts & flag & infos & votes & Hname & _ & Hin & _).
    unfold ignored. now rewrite Hname.
  - unfold parse_event_item in H.
    apply bind_Ok in H. destruct H as (name & Hname & H).
    apply bind_Ok in H. destruct H as (matter & _ & H).
    unfold ignored. rewrite Hname. cbn [Ok].
    destruct (py_in name ignore); [reflexivity |].
    apply bind_Ok in H. destruct H as (? & _ & H).
    apply bind_Ok in H. destruct H as (? & _ & H).
    apply bind_Ok in H. destruct H as (? & _ & H).
    apply bind_Ok in H. destruct H as (? & _ & H).
    apply bind_Ok in H. destruct H as (? & _ & H).
    apply bind_Ok in H. destruct H as (? & _ & H).
    apply bind_Ok in H. destruct H as (? & _ & H).
    discriminate H.
Qed.

Lemma emitted_length (ignore : list string) (raw : list value)
    (rs : list (option value)) :
  mapM (parse_event_item ignore) raw = Ok rs ->
  (List.length (emitted rs) + List.length (filter (ignored ignore) raw)
   = List.length raw)%nat.
Proof.
  intros H. apply mapM_Forall2 in H.
  induction H as [| item r raw rs Hr _ IH]; [reflexivity |].
  simpl. rewrite (parse_event_item_ignored _ _ _ Hr).
  destruct r; simpl; lia.
Qed.

(** X18. No minutes item of the output has a name on the ignore list. *)
Theorem output_names_not_ignored
    (strptime : string -> option datetime) (str_other : value -> string)
    (ev out : value) (ignore : list string) :
  parse_legistar_event_details strptime str_other ev ignore = Ok out ->
  exists items,
    subscript out "minutes_items" = Ok (VList items) /\
    forall mi, In mi items ->
      exists name, subscript mi "name" = Ok name /\ py_in name ignore = false.
Proof.
  intros H.
  destruct (output_item_origin _ _ _ _ _ H) as (items & Hitems & _ & Horigin).
  exists items. split; [exact Hitems |]. intros mi Hin.
  destruct (Horigin mi Hin) as (raw0 & raw & item & _ & _ & _ & Hbody).
  destruct (parse_event_item_Some _ _ _ Hbody)
    as (name & matter & index & id & atts & flag & infos & votes
        & _ & _ & Hname & _ & _ & _ & _ & _ & _ & ->).
  destruct (minutes_item_dict_fields name matter flag index id infos votes atts)
    as (Hn & _).
  now exists name.
Qed.

Lemma output_names_not_ignored_witness :
  exists out,
    parse_legistar_event_details strptime_event_format str_unmodelled
      (sample_meeting [item_voted; item_unflagged; item_passed_unrecorded])
      ["Call to order"] = Ok out /\
    exists items,
      subscript out "minutes_items" = Ok (VList items) /\
      forall mi, In mi items ->
        exists name,
          subscript mi "name" = Ok name /\ py_in name ["Call to order"] = false.
Proof.
  eexists. split; [reflexivity |].
  apply (output_names_not_ignored strptime_event_format str_unmodelled
           (sample_meeting [item_voted; item_unflagged; item_passed_unrecorded])
           _ ["Call to order"]).
  reflexivity.
Defined.

(** X19. The output has one minutes item for every event item whose name
    is not on the ignore list: the minutes items and the ignored event
    items together are as many as the event items. *)
Theorem output_item_count
    (strptime : string -> option datetime) (str_other : value -> string)
    (ev out raw0 : value) (raw : list value) (ignore : list string) :
  parse_legistar_event_details strptime str_other ev ignore = Ok out ->
  subscript ev "EventItems" = Ok raw0 -> iterate raw0 = Ok raw ->
  exists items,
    subscript out "minutes_items" = Ok (VList items) /\
    (List.length items + List.length (filter (ignored ignore) raw)
     = List.length raw)%nat.
Proof.
  intros H Hraw0 Hraw.
  destruct (parse_legistar_event_details_Ok _ _ _ _ _ H)
    as (dt & raw0' & raw' & unsorted & items & agenda & body & id & link & mf
        & _ & Hraw0' & Hraw' & Hloop & Hsort & ->).
  rewrite Hraw0 in Hraw0'. injection Hraw0' as <-.
  rewrite Hraw in Hraw'. injection Hraw' as <-.
  exists items. split; [reflexivity |].
  rewrite minutes_items_loop_mapM in Hloop.
  apply bind_Ok in Hloop. destruct Hloop as (rs & Hrs & Hloop).
  injection Hloop as <-. simpl in Hsort.
  destruct (sorted_by_index_Ok _ _ Hsort) as (Hperm & _).
  rewrite <- (Permutation_length Hperm). now apply emitted_length.
Qed.

Lemma output_item_count_witness :
  exists out,
    parse_legistar_event_details strptime_event_format str_unmodelled
      (sample_meeting [item_voted; item_unflagged; item_passed_unrecorded])
      ["Call to order"] = Ok out /\
    exists items,
      subscript out "minutes_items" = Ok (VList items) /\
      (List.length items
       + List.length (filter (ignored ["Call to order"])
                        [item_voted; item_unflagged; item_passed_unrecorded])
       = List.length [item_voted; item_unflagged; item_passed_unrecorded])%nat.
Proof.
  eexists. split; [reflexivity |].
  apply (output_item_count strptime_event_format str_unmodelled
           (sample_meeting [item_voted; item_unflagged; item_passed_unrecorded])
           _ (VList [item_voted; item_unflagged; item_passed_unrecorded])
           [item_voted; item_unflagged; item_passed_unrecorded] ["Call to order"]);
    reflexivity.
Defined.

Lemma parse_attachment_copies (raw out : value) :
  parse_attachment raw = Ok out -> attachment_copied raw out.
Proof.
  unfold parse_attachment, attachment_copied, int_field. intros H.
  apply bind_Ok in H. destruct H as (name & Hname & H).
  apply bind_Ok in H. destruct H as (uri & Huri & H).
  apply bind_Ok in H. destruct H as (id0 & Hid0 & H).
  apply bind_Ok in H. destruct H as (id & Hid & H).
  injection H as <-. rewrite Hname, Huri, Hid0. simpl. rewrite Hid.
  now repeat split.
Qed.

Lemma parse_vote_copies (raw out : value) :
  parse_vote raw = Ok out -> vote_copied raw out.
Proof.
  unfold parse_vote, vote_copied, int_field. intros H.
  apply bind_Ok in H. destruct H as (decision & Hdec & H).
  apply bind_Ok in H. destruct H as (id0 & Hid0 & H).
  apply bind_Ok in H. destruct H as (id & Hid & H).
  apply bind_Ok in H. destruct H as (full_name & Hfn & H).
  apply bind_Ok in H. destruct H as (email & Hem & H).
  apply bind_Ok in H. destruct H as (phone & Hph & H).
  apply bind_Ok in H. destruct H as (website & Hww & H).
  apply bind_Ok in H. destruct H as (person_id & Hpi & H).
  injection H as <-. rewrite Hdec, Hid0, Hfn, Hem, Hph, Hww, Hpi. simpl. rewrite Hid.
  now repeat split.
Qed.

(** X20. The attachments of a minutes item are those of the event item,
    one for one and in order, each with the name, the link and the
    identifier (through [int]) of the upstream attachment; they are kept
    whatever the passed flag says. *)
Theorem attachments_copied_in_order (ignore : list string) (item mi : value)
    (raw_attachments : list value) :
  subscript item "EventItemMatterAttachments" = Ok (VList raw_attachments) ->
  parse_event_item ignore item = Ok (Some mi) ->
  exists attachments,
    subscript mi "attachments" = Ok (VList attachments) /\
    Forall2 attachment_copied raw_attachments attachments.
Proof.
  intros Hraw H.
  destruct (parse_event_item_Some _ _ _ H)
    as (name & matter & index & id & atts & flag & infos & votes
        & _ & _ & _ & _ & _ & Hatts & _ & _ & _ & ->).
  destruct (minutes_item_dict_fields name matter flag index id infos votes atts)
    as (_ & _ & _ & _ & _ & Ha).
  exists atts. split; [exact Ha |].
  unfold item_attachments in Hatts. rewrite Hraw in Hatts. simpl in Hatts.
  apply mapM_Forall2 in Hatts.
  eapply Forall2_impl; [| exact Hatts]. apply parse_attachment_copies.
Qed.

Lemma attachments_copied_in_order_witness :
  exists mi,
    parse_event_item [] item_voted = Ok (Some mi) /\
    exists attachments,
      subscript mi "attachments" = Ok (VList attachments) /\
      Forall2 attachment_copied [sample_attachment (VStr "301")] attachments.
Proof.
  eexists. split; [reflexivity |].
  apply (attachments_copied_in_order [] item_voted _ [sample_attachment (VStr "301")]);
    reflexivity.
Defined.

(** X21. Under a truthy passed flag the votes of a minutes item are
    those of the event item, one for one and in order, each with the
    value, the identifier (through [int]) and the person's fields of the
    upstream vote. *)
Theorem votes_copied_in_order (ignore : list string) (item flag mi : value)
    (vote_infos : list value) :
  subscript item "EventItemPassedFlagName" = Ok flag -> truthy flag = true ->
  subscript item "EventItemVoteInfo" = Ok (VList vote_infos) ->
  parse_event_item ignore item = Ok (Some mi) ->
  exists votes,
    subscript mi "votes" = Ok (VList votes) /\
    Forall2 vote_copied vote_infos votes.
Proof.
  intros Hflag Htruthy Hvi H.
  destruct (parse_event_item_Some _ _ _ H)
    as (name & matter & index & id & atts & flag' & infos & votes
        & _ & _ & _ & _ & _ & _ & Hflag' & Hinfos & Hvotes & ->).
  rewrite Hflag in Hflag'. injection Hflag' as <-.
  destruct (minutes_item_dict_fields name matter flag index id infos votes atts)
    as (_ & _ & _ & _ & Hv & _).
  exists votes. split; [exact Hv |].
  unfold item_vote_infos in Hinfos. rewrite Htruthy, Hvi in Hinfos.
  injection Hinfos as <-.
  apply mapM_Forall2 in Hvotes.
  eapply Forall2_impl; [| exact Hvotes]. apply parse_vote_copies.
Qed.

Lemma votes_copied_in_order_witness :
  exists mi,
    parse_event_item [] item_voted = Ok (Some mi) /\
    exists votes,
      subscript mi "votes" = Ok (VList votes) /\
      Forall2 vote_copied [sample_vote (VFloat (71 # 1)) (VStr "42")] votes.
Proof.
  eexists. split; [reflexivity |].
  apply (votes_copied_in_order [] item_voted (VStr "Pass") _
           [sample_vote (VFloat (71 # 1)) (VStr "42")]);
    reflexivity.
Defined.

Lemma before_T_app (day rest : string) :
  free_of_T day = true -> before_T (day ++ "T" ++ rest) = day.
Proof.
  unfold free_of_T. induction day as [| c day IH]; intros H.
  - reflexivity.
  - cbn [list_ascii_of_string existsb] in H. cbn [append before_T].
    destruct (Ascii.eqb c "T"); [discriminate H |].
    f_equal. exact (IH H).
Qed.

(** X22. The Normalizer reads the date field only up to its first
    ["T"]: two events that differ only in what follows it (the time of
    day Legistar appends to the date) are normalized alike, and the
    timestamp of the output is read from the day before the ["T"] and
    the time field. *)
Theorem date_read_up_to_T
    (strptime : string -> option datetime) (str_other : value -> string)
    (d : dict) (day rest rest' : string) (ignore : list string) :
  free_of_T day = true ->
  parse_legistar_event_details strptime str_other
    (VDict (dict_set "EventDate" (VStr (day ++ "T" ++ rest)) d)) ignore
  = parse_legistar_event_details strptime str_other
      (VDict (dict_set "EventDate" (VStr (day ++ "T" ++ rest')) d)) ignore /\
  (forall out,
     parse_legistar_event_details strptime str_other
       (VDict (dict_set "EventDate" (VStr (day ++ "T" ++ rest)) d)) ignore = Ok out ->
     exists time dt,
       subscript (VDict d) "EventTime" = Ok time /\
       strptime (day ++ "T" ++ py_str str_other time) = Some dt /\
       subscript out "event_datetime" = Ok (VDatetime dt)).
Proof.
  intros Hday.
  assert (Hother : forall x k, k <> "EventDate" ->
            subscript (VDict (dict_set "EventDate" x d)) k = subscript (VDict d) k).
  { intros x k Hk. unfold subscript. now rewrite dict_get_set_other. }
  assert (Hsame : forall x, subscript (VDict (dict_set "EventDate" x d)) "EventDate" = Ok x).
  { intros x. unfold subscript. now rewrite dict_get_set_same. }
  split.
  - unfold parse_legistar_event_details, parse_event_datetime.
    rewrite !Hsame. rewrite !(Hother (VStr (day ++ "T" ++ rest))) by discriminate.
    rewrite !(Hother (VStr (day ++ "T" ++ rest'))) by discriminate.
    cbn [bind split_T_head Ok]. now rewrite !before_T_app.
  - intros out H.
    destruct (parse_legistar_event_details_Ok _ _ _ _ _ H)
      as (dt & raw0 & raw & unsorted & items & agenda & body & id & link & mf
          & Hdt & _ & _ & _ & _ & ->).
    unfold parse_event_datetime in Hdt.
    rewrite Hsame, Hother in Hdt by discriminate.
    cbn [bind split_T_head Ok] in Hdt. rewrite before_T_app in Hdt by exact Hday.
    destruct (subscript (VDict d) "EventTime") as [e | time]; [discriminate Hdt |].
    cbn [bind Ok] in Hdt.
    destruct (strptime (day ++ "T" ++ py_str str_other time)) as [dt' |] eqn:E;
      [| discriminate Hdt].
    injection Hdt as ->. exists time, dt. now repeat split.
Qed.

Lemma date_read_up_to_T_witness :
  (out <- parse_legistar_event_details strptime_event_format str_unmodelled
            (VDict (dict_set "EventDate" (VStr "2019-03-04T23:59:59")
                      (dict_set "EventItems" (VList [item_voted])
                         (sample_event_fields VNone (VStr "3:00 PM"))))) [] ;;
   names <- output_field "name" out ;;
   event_dt <- subscript out "event_datetime" ;;
   Ok (names, event_dt))
  = Ok ([VStr "Budget"], VDatetime (mkDatetime 2019 3 4 15 0)) /\
  parse_legistar_event_details strptime_event_format str_unmodelled
    (VDict (dict_set "EventDate" (VStr "2019-03-04T00:00:00")
              (dict_set "EventItems" (VList [item_voted])
                 (sample_event_fields VNone (VStr "3:00 PM"))))) []
  = parse_legistar_event_details strptime_event_format str_unmodelled
      (VDict (dict_set "EventDate" (VStr "2019-03-04T23:59:59")
                (dict_set "EventItems" (VList [item_voted])
                   (sample_event_fields VNone (VStr "3:00 PM"))))) [] /\
  (forall out,
     parse_legistar_event_details strptime_event_format str_unmodelled
       (VDict (dict_set "EventDate" (VStr "2019-03-04T00:00:00")
                 (dict_set "EventItems" (VList [item_voted])
                    (sample_event_fields VNone (VStr "3:00 PM"))))) [] = Ok out ->
     exists time dt,
       subscript (VDict (dict_set "EventItems" (VList [item_voted])
                           (sample_event_fields VNone (VStr "3:00 PM"))))
         "EventTime" = Ok time /\
       strptime_event_format ("2019-03-04" ++ "T" ++ py_str str_unmodelled time)
       = Some dt /\
       subscript out "event_datetime" = Ok (VDatetime dt)).
Proof.
  split; [reflexivity |].
  apply (date_read_up_to_T strptime_event_format str_unmodelled
           (dict_set "EventItems" (VList [item_voted])
              (sample_event_fields VNone (VStr "3:00 PM")))
           "2019-03-04" "00:00:00" "23:59:59" []).
  reflexivity.
Defined.
